(** * A shallow embedding of the Flask user registry (src/app.py)

    The registry keeps one module-level list [users] of records
    [{'Name': str, 'Age': int}] and serves five handlers over it:
    [create_user], [delete_user], [get_users], [upload_users] and
    [get_average_age_by_group], all of which call [validate_user_data] and
    [user_exists].

    Modelling conventions.
    - A Python [str] is a list of Unicode code points ([list N]).
    - The values a JSON field or a CSV cell decodes to are the scalars
      [None], [bool], [int], [float] and [str] ([pyval]); fields that hold
      arrays or objects are outside the model.
    - A Python [float] is an IEEE-754 double, written with the Standard
      Library's [spec_float] as a value notation [m * 2^e]; mantissas
      produced by [double_of_Z] are not normalised.
    - The module-level list [users] is threaded explicitly: a handler maps the
      list before the request to an outcome and the list after it.  An
      exception that no handler catches is the outcome [Raise].
    - The Unicode tables behind [float()], [int()] and [str.upper()] for
      code points above ASCII are parameters of the development, and so are
      the two settings of the interpreter the code depends on: the characters
      the encoding of [sys.stdout] has, which decides whether the [print] of
      line 23 returns or raises [UnicodeEncodeError], and the limit
      [sys.get_int_max_str_digits()] on conversions between [int] and
      [str]. *)

From Stdlib Require Import ZArith NArith Lia String Ascii SpecFloat Sorted.
From stdpp Require Import gmap list pretty.

Local Open Scope Z_scope.

(** ** Python strings *)

Abbreviation pystr := (list N).

(** A string literal of the source, as its list of code points. *)
Definition lit (s : string) : pystr :=
  map N_of_ascii (list_ascii_of_string s).

(** [Py_UNICODE_ISSPACE]: the characters [str.strip()] removes and
    [str.isspace()] accepts. *)
Definition Py_UNICODE_ISSPACE (c : N) : bool :=
  ((9 <=? c) && (c <=? 13) || (28 <=? c) && (c <=? 31) || (c =? 32)
   || (c =? 0x85) || (c =? 0xA0) || (c =? 0x1680)
   || (0x2000 <=? c) && (c <=? 0x200A)
   || (c =? 0x2028) || (c =? 0x2029) || (c =? 0x202F)
   || (c =? 0x205F) || (c =? 0x3000))%N.

(** [Py_ISSPACE]: the ASCII white space [float()] and [int()] skip at both
    ends of their argument. *)
Definition Py_ISSPACE (c : N) : bool :=
  ((9 <=? c) && (c <=? 13) || (c =? 32))%N.

Fixpoint lstrip_with (sp : N -> bool) (s : pystr) : pystr :=
  match s with
  | [] => []
  | c :: r => if sp c then lstrip_with sp r else s
  end.

Definition rstrip_with (sp : N -> bool) (s : pystr) : pystr :=
  rev (lstrip_with sp (rev s)).

Definition strip_with (sp : N -> bool) (s : pystr) : pystr :=
  rstrip_with sp (lstrip_with sp s).

(** [s.strip()] *)
Definition strip (s : pystr) : pystr := strip_with Py_UNICODE_ISSPACE s.

Fixpoint startswith (p s : pystr) : bool :=
  match p, s with
  | [], _ => true
  | a :: p', b :: s' => (a =? b)%N && startswith p' s'
  | _ :: _, [] => false
  end.

(** [s.endswith(p)] *)
Definition endswith (s p : pystr) : bool := startswith (rev p) (rev s).

(** ** Python exceptions and results *)

Inductive pyexn := ValueError | TypeError | OverflowError | AttributeError.

Inductive result (A : Type) :=
| Return (a : A)
| Raise (e : pyexn).
Arguments Return {A} a.
Arguments Raise {A} e.

(** ** Python floats *)

Definition prec : Z := 53.
Definition emax : Z := 1024.

Definition float_of_bits (neg : bool) (m : Z) (e : Z) : spec_float :=
  match m with
  | Zpos p => S754_finite neg p e
  | _ => S754_zero neg
  end.

(** [n / d] rounded to the nearest integer, ties to the even one
    ([d] positive, [n] not negative). *)
Definition round_half_even (n d : Z) : Z :=
  let q := n / d in
  let r := n mod d in
  if 2 * r <? d then q
  else if d <? 2 * r then q + 1
  else if Z.even q then q else q + 1.

(** The double nearest to the integer [z] (round to nearest, ties to even);
    an infinity when the rounded value does not fit. *)
Definition double_of_Z (z : Z) : spec_float :=
  let a := Z.abs z in
  let e := Z.max 0 (Z.log2 a - 52) in
  let m := round_half_even a (2 ^ e) in
  if 2 ^ emax <=? m * 2 ^ e then S754_infinity (z <? 0)
  else float_of_bits (z <? 0) m e.

(** [f.is_integer()] *)
Definition is_integer (f : spec_float) : bool :=
  match f with
  | S754_zero _ => true
  | S754_finite _ m e =>
      if 0 <=? e then true else Zpos m mod 2 ^ (- e) =? 0
  | S754_infinity _ | S754_nan => false
  end.

(** [int(f)] for a float: truncation towards zero; [OverflowError] on an
    infinity and [ValueError] on a NaN. *)
Definition int_of_float (f : spec_float) : result Z :=
  match f with
  | S754_zero _ => Return 0
  | S754_finite s m e =>
      let v := if 0 <=? e then Zpos m * 2 ^ e else Zpos m / 2 ^ (- e) in
      Return (if s then - v else v)
  | S754_infinity _ => Raise OverflowError
  | S754_nan => Raise ValueError
  end.

(** [numpy.rint]: the nearest integral double, ties to even. *)
Definition rint (f : spec_float) : spec_float :=
  match f with
  | S754_finite s m e =>
      if 0 <=? e then f
      else float_of_bits s (round_half_even (Zpos m) (2 ^ (- e))) 0
  | _ => f
  end.

(** The exponent of the double nearest to [n / d] ([n], [d] positive): the
    one that leaves 53 bits before the binary point, not below that of the
    subnormal numbers. *)
Definition ratio_exponent (n d : Z) : Z :=
  let e0 := Z.log2 n - Z.log2 d - 53 in
  let e :=
    if n * 2 ^ Z.max 0 (- e0) <? d * 2 ^ Z.max 0 e0 * 2 ^ 53 then e0
    else e0 + 1 in
  Z.max e (-1074).

(** The double nearest to [n / d] ([n], [d] positive), ties to even, with
    the sign [neg]: the rounding of the IEEE-754 operations. *)
Definition round_ratio (neg : bool) (n d : Z) : spec_float :=
  let e := ratio_exponent n d in
  let m := round_half_even (n * 2 ^ Z.max 0 (- e)) (d * 2 ^ Z.max 0 e) in
  let '(m, e) := if m =? 2 ^ 53 then (2 ^ 52, e + 1) else (m, e) in
  if 971 <? e then S754_infinity neg else float_of_bits neg m e.

(** float64 multiplication: the exact product of two finite numbers,
    rounded; the cases with a zero, an infinity or a NaN as IEEE-754 has
    them. *)
Definition fmul (x y : spec_float) : spec_float :=
  match x, y with
  | S754_finite sx mx ex, S754_finite sy my ey =>
      let e := ex + ey in
      round_ratio (xorb sx sy) (Zpos mx * Zpos my * 2 ^ Z.max 0 e)
                  (2 ^ Z.max 0 (- e))
  | _, _ => SFmul prec emax x y
  end.

(** float64 division: the exact quotient of two finite numbers, rounded. *)
Definition fdiv (x y : spec_float) : spec_float :=
  match x, y with
  | S754_finite sx mx ex, S754_finite sy my ey =>
      let e := ex - ey in
      round_ratio (xorb sx sy) (Zpos mx * 2 ^ Z.max 0 e)
                  (Zpos my * 2 ^ Z.max 0 (- e))
  | _, _ => SFdiv prec emax x y
  end.

(** [numpy.round(x, 2)] on a float64: multiply by [10.0 ** 2], [rint],
    divide by it again. *)
Definition np_round2 (f : spec_float) : spec_float :=
  let hundred := S754_finite false 100 0 in
  fdiv (rint (fmul f hundred)) hundred.

(** The float64 of the two-decimal number [k / 100]: the double nearest to
    it, by the division of the Standard Library. *)
Definition decimal2 (k : Z) : spec_float :=
  SFdiv prec emax (double_of_Z k) (double_of_Z 100).

(** Equality of two floats as data. *)
Definition float_same (x y : spec_float) : bool :=
  match x, y with
  | S754_zero s, S754_zero t | S754_infinity s, S754_infinity t =>
      Bool.eqb s t
  | S754_nan, S754_nan => true
  | S754_finite s m e, S754_finite t n f =>
      Bool.eqb s t && (Zpos m =? Zpos n) && (e =? f)
  | _, _ => false
  end.

(** ** Values and numeric conversions *)

(** A decoded JSON scalar or CSV cell. *)
Inductive pyval :=
| VNone
| VBool (b : bool)
| VInt (z : Z)
| VFloat (f : spec_float)
| VStr (s : pystr).

Definition is_digit (c : N) : bool := ((48 <=? c) && (c <=? 57))%N.

(** The value of a run of ASCII digits, most significant first. *)
Definition digits_value (ds : list N) : Z :=
  fold_left (fun acc c => 10 * acc + (Z.of_N c - 48)) ds 0.

Fixpoint read_digits (l : list N) : list N * list N :=
  match l with
  | c :: r =>
      if is_digit c then let '(ds, rest) := read_digits r in (c :: ds, rest)
      else ([], l)
  | [] => ([], [])
  end.

(** An optional sign: [true] for a minus. *)
Definition read_sign (l : list N) : bool * list N :=
  match l with
  | c :: r =>
      if (c =? 43)%N then (false, r)
      else if (c =? 45)%N then (true, r)
      else (false, l)
  | [] => (false, [])
  end.

Definition lower_ascii (c : N) : N :=
  if ((65 <=? c) && (c <=? 90))%N then (c + 32)%N else c.

(** [_Py_string_to_number_with_underscores]: an underscore is allowed only
    between two digits; the text is handed on without them. *)
Fixpoint strip_underscores (prev : N) (l : list N) : option (list N) :=
  match l with
  | [] => if (prev =? 95)%N then None else Some []
  | c :: r =>
      if (c =? 95)%N then
        if is_digit prev then strip_underscores c r else None
      else if (prev =? 95)%N && negb (is_digit c) then None
      else option_map (cons c) (strip_underscores c r)
  end.

(** [_Py_parse_inf_or_nan]: a sign, then inf, infinity or nan in any case. *)
Definition parse_inf_or_nan (u : list N) : option spec_float :=
  let '(neg, r) := read_sign u in
  let w := map lower_ascii r in
  if bool_decide (w = lit "inf") || bool_decide (w = lit "infinity")
  then Some (S754_infinity neg)
  else if bool_decide (w = lit "nan") then Some S754_nan
  else None.

(** The decimal literals of [strtod]: sign, digits, an optional fraction,
    an optional exponent, at least one digit before the exponent.  The result
    is the sign, the digits read as one integer [n] and the power [k] of ten:
    the literal denotes [n * 10^k]. *)
Definition parse_decimal (u : list N) : option (bool * Z * Z) :=
  let '(neg, r) := read_sign u in
  let '(ip, r1) := read_digits r in
  let '(fp, r2) :=
    match r1 with
    | c :: r' => if (c =? 46)%N then read_digits r' else ([], r1)
    | [] => ([], r1)
    end in
  match ip ++ fp with
  | [] => None
  | ds =>
      let n := digits_value ds in
      let k := - Z.of_nat (length fp) in
      match r2 with
      | [] => Some (neg, n, k)
      | c :: r3 =>
          if ((c =? 101) || (c =? 69))%N then
            let '(eneg, r4) := read_sign r3 in
            match read_digits r4 with
            | ((_ :: _) as ed, []) =>
                let x := digits_value ed in
                Some (neg, n, k + (if eneg then - x else x))
            | _ => None
            end
          else None
      end
  end.

(** The double nearest to [n * 10^k] ([n] not negative), with the sign
    [neg]: [strtod] rounds correctly. *)
Definition double_of_decimal (neg : bool) (n k : Z) : spec_float :=
  match n with
  | Zpos p =>
      if 0 <=? k then double_of_Z ((if neg then -1 else 1) * (n * 10 ^ k))
      else SFdiv prec emax (S754_finite neg p 0)
                           (float_of_bits false (10 ^ (- k)) 0)
  | _ => S754_zero neg
  end.

(** [PyLong_FromString] in base 10, after the sign: digits with single
    underscores between them. *)
Fixpoint long_scan (prev : N) (acc : Z) (l : list N) : option Z :=
  match l with
  | [] => if (prev =? 95)%N then None else Some acc
  | c :: r =>
      if (c =? 95)%N then
        if (prev =? 95)%N then None else long_scan c acc r
      else if is_digit c then long_scan c (10 * acc + (Z.of_N c - 48)) r
      else None
  end.

Definition long_from_string (t : list N) : option Z :=
  let '(neg, r) := read_sign t in
  match r with
  | [] => None
  | c :: _ =>
      if (c =? 95)%N then None
      else option_map (fun v => if neg then - v else v) (long_scan 0 0 r)
  end.

Fixpoint count_digits (l : list N) : N :=
  match l with
  | [] => 0
  | c :: r => ((if is_digit c then 1 else 0) + count_digits r)%N
  end.

(** Unicode tables that stop at ASCII: no further decimal digits, no
    further case pairs.  They serve to run the model on ASCII inputs, which
    never consult them. *)
Definition ascii_decimal : N -> option N := fun _ => None.
Definition ascii_upper : N -> pystr := fun c => [c].

(** A standard output in UTF-8: every code point but the surrogates. *)
Definition utf8_stdout (c : N) : bool :=
  negb ((0xD800 <=? c) && (c <=? 0xDFFF))%N.

(** The default of [sys.get_int_max_str_digits()]. *)
Definition default_max_str_digits : N := 4300.

Section Registry.

(** [Py_UNICODE_TODECIMAL] on the code points above ASCII: the decimal
    digits of other scripts, which [float()] and [int()] read as digits. *)
Variable unicode_decimal : N -> option N.

(** [str.upper()] of one character above ASCII (possibly several
    characters long). *)
Variable unicode_upper : N -> pystr.

(** The code points above ASCII that the encoding of [sys.stdout] has. *)
Variable stdout_encodes : N -> bool.

(** [sys.get_int_max_str_digits()]: the longest run of digits that [int] and
    [str] convert; 0 when the interpreter has no such limit. *)
Variable int_max_str_digits : N.

(** The limit applies to more than 640 digits only. *)
Definition over_digit_limit (digits : N) : bool :=
  ((640 <? digits) && (0 <? int_max_str_digits)
   && (int_max_str_digits <? digits))%N.

(** [_PyUnicode_TransformDecimalAndSpaceToASCII] on one character. *)
Definition to_ascii (c : N) : N :=
  if (c <? 128)%N then c
  else if Py_UNICODE_ISSPACE c then 32%N
  else match unicode_decimal c with
       | Some d => if (d <? 10)%N then (48 + d)%N else 63%N
       | None => 63%N
       end.

(** The text [float(s)] and [int(s)] parse for a [str] argument. *)
Definition numeric_text (s : pystr) : list N :=
  strip_with Py_ISSPACE (map to_ascii s).

(** [float(s)] for a [str]: [None] stands for [ValueError]. *)
Definition float_of_str (s : pystr) : option spec_float :=
  match strip_underscores 0 (numeric_text s) with
  | None => None
  | Some u =>
      match parse_inf_or_nan u with
      | Some f => Some f
      | None =>
          match parse_decimal u with
          | Some (neg, n, k) => Some (double_of_decimal neg n k)
          | None => None
          end
      end
  end.

(** [int(s)] for a [str]: [None] stands for [ValueError], also the one of
    a run of digits over the limit. *)
Definition int_of_str (s : pystr) : option Z :=
  if over_digit_limit (count_digits (numeric_text s)) then None
  else long_from_string (numeric_text s).

(** [float(v)] *)
Definition py_float (v : pyval) : result spec_float :=
  match v with
  | VNone => Raise TypeError
  | VBool b => Return (double_of_Z (if b then 1 else 0))
  | VInt z =>
      match double_of_Z z with
      | S754_infinity _ => Raise OverflowError
      | f => Return f
      end
  | VFloat f => Return f
  | VStr s =>
      match float_of_str s with
      | Some f => Return f
      | None => Raise ValueError
      end
  end.

(** [int(v)] *)
Definition py_int (v : pyval) : result Z :=
  match v with
  | VNone => Raise TypeError
  | VBool b => Return (if b then 1 else 0)
  | VInt z => Return z
  | VFloat f => int_of_float f
  | VStr s =>
      match int_of_str s with
      | Some z => Return z
      | None => Raise ValueError
      end
  end.

(** [pandas.isna(v)] on a scalar *)
Definition pd_isna (v : pyval) : bool :=
  match v with
  | VNone => true
  | VFloat S754_nan => true
  | _ => false
  end.

(** [str(z)] of an [int] raises [ValueError] when [z] has more decimal
    digits than the limit allows. *)
Definition str_of_int_raises (z : Z) : bool :=
  (10 ^ 640 <=? Z.abs z) && (0 <? int_max_str_digits)%N
  && (10 ^ Z.of_N int_max_str_digits <=? Z.abs z).

(** The text of a [str] can be written when [sys.stdout] encodes each of
    its characters. *)
Definition encodable (s : pystr) : bool :=
  forallb (fun c => (c <? 128)%N || stdout_encodes c) s.

(** Whether [print] can write the value: the text of [None], of a [bool] and
    of a [float] is ASCII. *)
Definition printable (v : pyval) : bool :=
  match v with
  | VStr s => encodable s
  | VInt z => negb (str_of_int_raises z)
  | _ => true
  end.

(** [print(...)] of values between ASCII labels.  It raises
    [UnicodeEncodeError] on a text [sys.stdout] cannot encode and
    [ValueError] on an [int] over the digit limit; the former is a subclass of
    the latter and is recorded as [ValueError]. *)
Definition py_print (args : list pyval) : result unit :=
  if forallb printable args then Return tt else Raise ValueError.

(** ** The registry *)

Record user := { Name : pystr; Age : Z }.

#[global] Instance user_eq_dec : EqDecision user.
Proof. solve_decision. Defined.

(** [user_exists], app.py lines 11-16. *)
Definition user_exists (users : list user) (name : pystr) : bool :=
  existsb (fun user => bool_decide (Name user = name)) users.

Definition msg_name_empty : pystr := lit "Name cannot be empty".
Definition msg_age_empty : pystr := lit "Age cannot be empty".
Definition msg_age_number : pystr := lit "Age must be a number".
Definition msg_age_integer : pystr := lit "Age must be an integer".
Definition msg_age_range : pystr := lit "Age must be between 1 and 120".

(** The checks of [validate_user_data], app.py lines 24-44.  A [str] is
    never missing for [pd.isna]; [float(age)] is guarded by
    [except (ValueError, TypeError)] only. *)
Definition validate_checks (name age : pyval) : result (bool * pystr) :=
  match name with
  | VStr s =>
      if bool_decide (strip s = []) then Return (false, msg_name_empty)
      else if pd_isna age then Return (false, msg_age_empty)
      else
        match py_float age with
        | Raise ValueError | Raise TypeError => Return (false, msg_age_number)
        | Raise e => Raise e
        | Return age_float =>
            if negb (is_integer age_float)
            then Return (false, msg_age_integer)
            else
              match int_of_float age_float with
              | Raise e => Raise e
              | Return age =>
                  if (age <=? 0) || (120 <? age)
                  then Return (false, msg_age_range)
                  else Return (true, [])
              end
        end
  | _ => Return (false, msg_name_empty)
  end.

(** [validate_user_data], app.py lines 18-44: the [print] of line 23, then
    the checks.  The pair is [(is_valid, error_message)]. *)
Definition validate_user_data (name age : pyval) : result (bool * pystr) :=
  match py_print [name; age] with
  | Raise e => Raise e
  | Return _ => validate_checks name age
  end.

(** *** Requests and responses *)

(** A decoded JSON request body. *)
Inductive json :=
| JScalar (v : pyval)
| JArray (items : list pyval)
| JObject (d : gmap pystr pyval).

(** Python truth value of a decoded body: [not data] is its negation. *)
Definition truthy (data : json) : bool :=
  match data with
  | JScalar VNone => false
  | JScalar (VBool b) => b
  | JScalar (VInt z) => negb (z =? 0)
  | JScalar (VFloat (S754_zero _)) => false
  | JScalar (VFloat _) => true
  | JScalar (VStr s) => negb (bool_decide (s = []))
  | JArray items => negb (bool_decide (items = []))
  | JObject d => negb (bool_decide (d = ∅))
  end.

(** [d.get(key)] *)
Definition dict_get (d : gmap pystr pyval) (key : pystr) : pyval :=
  default VNone (d !! key).

Record invalid_row := { row : Z; error : pystr }.

(** The JSON documents the handlers answer with. *)
Inductive body :=
| BError (error : pystr)
| BUser (u : user)
| BMessage (message : pystr)
| BUsers (data : list user) (count : nat)
| BUpload (message : pystr) (added_users : list user)
          (skipped : option (list invalid_row * pystr))
| BAverage (average_age : gmap pystr spec_float).

(** A response: status code and body. *)
Definition response : Type := Z * body.

(** What a handler does to the registry: its outcome and the list [users]
    it leaves behind. *)
Definition handler : Type := list user -> result response * list user.

(** [str(name)] where [name] is a [str].  [validate_user_data] has rejected
    every other type before the callers reach this conversion. *)
Definition str_of (v : pyval) : pystr :=
  match v with
  | VStr s => s
  | _ => []
  end.

Definition msg_required : pystr := lit "Name and age are required".
Definition msg_exists : pystr := lit "User already exists".
Definition msg_not_found : pystr := lit "User not found".
Definition msg_no_users : pystr := lit "No users found".

(** [create_user], app.py lines 77-98. *)
Definition create_user (data : json) : handler := fun users =>
  if negb (truthy data) then (Return (400, BError msg_required), users)
  else
    match data with
    | JObject d =>
        let name := dict_get d (lit "Name") in
        let age := dict_get d (lit "Age") in
        match validate_user_data name age with
        | Raise e => (Raise e, users)
        | Return (false, error) => (Return (400, BError error), users)
        | Return (true, _) =>
            let name := strip (str_of name) in
            match py_int age with
            | Raise e => (Raise e, users)
            | Return age =>
                if user_exists users name
                then (Return (400, BError msg_exists), users)
                else
                  let user := {| Name := name; Age := age |} in
                  (Return (201, BUser user), users ++ [user])
            end
        end
    | _ => (Raise AttributeError, users)
    end.

(** [users.remove(user)]: the first element equal to [user] goes;
    [None] stands for the [ValueError] of an absent element. *)
Fixpoint list_remove (x : user) (l : list user) : option (list user) :=
  match l with
  | [] => None
  | y :: r =>
      if decide (y = x) then Some r
      else option_map (cons y) (list_remove x r)
  end.

(** [delete_user], app.py lines 119-123. *)
Definition delete_user (name : pystr) : handler := fun users =>
  match find (fun user => bool_decide (Name user = name)) users with
  | Some user =>
      match list_remove user users with
      | Some users' =>
          (Return (200, BMessage (lit "User " ++ name
                                  ++ lit " deleted successfully")), users')
      | None => (Raise ValueError, users)
      end
  | None => (Return (404, BError msg_not_found), users)
  end.

(** [get_users], app.py line 152. *)
Definition get_users : handler := fun users =>
  (Return (200, BUsers users (length users)), users).

(** The table [pd.read_csv] returns: its column labels and, per data row,
    the record of [df.to_dict('records')]. *)
Record dataframe := {
  columns : list pystr;
  records : list (gmap pystr pyval)
}.

(** The uploaded file: its name and what [pd.read_csv(file)] does with it,
    either an exception with its text or a table. *)
Inductive csv_result :=
| CsvError (text : pystr)
| CsvFrame (df : dataframe).

Record file_storage := { filename : pystr; read_csv : csv_result }.

(** [str(n)] for a count. *)
Definition str_of_nat (n : nat) : pystr := lit (pretty n).

(** The loop of [upload_users], app.py lines 202-223, from row [idx] on.
    The state is the list [users] and the two local lists; an exception
    leaves [users] as the rows before it made it. *)
Fixpoint upload_rows (idx : Z) (new_users : list (gmap pystr pyval))
    (users added_users : list user) (invalid_users : list invalid_row)
    : result (list user * list invalid_row) * list user :=
  match new_users with
  | [] => (Return (added_users, invalid_users), users)
  | user :: rest =>
      let name := dict_get user (lit "Name") in
      let age := dict_get user (lit "Age") in
      match validate_user_data name age with
      | Raise e => (Raise e, users)
      | Return (false, error) =>
          upload_rows (idx + 1) rest users added_users
            (invalid_users ++ [{| row := idx + 2; error := error |}])
      | Return (true, _) =>
          let name := strip (str_of name) in
          match py_int age with
          | Raise e => (Raise e, users)
          | Return age =>
              if user_exists users name
              then
                upload_rows (idx + 1) rest users added_users
                  (invalid_users
                   ++ [{| row := idx + 2;
                          error := lit "User " ++ name
                                   ++ lit " already exists" |}])
              else
                let valid_user := {| Name := name; Age := age |} in
                upload_rows (idx + 1) rest (users ++ [valid_user])
                  (added_users ++ [valid_user]) invalid_users
          end
      end
  end.

(** The response of [upload_users], app.py lines 225-234. *)
Definition upload_response (added_users : list user)
    (invalid_users : list invalid_row) : response :=
  (201,
   BUpload (lit "Successfully added " ++ str_of_nat (length added_users)
            ++ lit " users")
     added_users
     (match invalid_users with
      | [] => None
      | _ =>
          Some (invalid_users,
                str_of_nat (length invalid_users)
                ++ lit " rows skipped due to validation errors or duplicates")
      end)).

Definition msg_no_file : pystr := lit "No file provided".
Definition msg_no_file_selected : pystr := lit "No file selected".
Definition msg_not_csv : pystr := lit "File must be a CSV".
Definition msg_columns : pystr :=
  lit "CSV must contain " ++ [34%N] ++ lit "Name" ++ [34%N] ++ lit " and "
  ++ [34%N] ++ lit "Age" ++ [34%N] ++ lit " columns".

(** [upload_users], app.py lines 176-234; [file] is
    [request.files.get('file')]. *)
Definition upload_users (file : option file_storage) : handler := fun users =>
  match file with
  | None => (Return (400, BError msg_no_file), users)
  | Some file =>
      if bool_decide (filename file = []) then
        (Return (400, BError msg_no_file_selected), users)
      else if negb (endswith (filename file) (lit ".csv")) then
        (Return (400, BError msg_not_csv), users)
      else
        match read_csv file with
        | CsvError text =>
            (Return (400, BError (lit "Error processing CSV file: " ++ text)),
             users)
        | CsvFrame df =>
            if negb (forallb (fun col => bool_decide (col ∈ columns df))
                       [lit "Name"; lit "Age"])
            then (Return (400, BError msg_columns), users)
            else
              match upload_rows 0 (records df) users [] [] with
              | (Raise e, users') => (Raise e, users')
              | (Return (added_users, invalid_users), users') =>
                  (Return (upload_response added_users invalid_users), users')
              end
        end
  end.

(** [s.upper()] of one character. *)
Definition upper_char (c : N) : pystr :=
  if ((97 <=? c) && (c <=? 122))%N then [(c - 32)%N]
  else if (c <? 128)%N then [c]
  else unicode_upper c.

(** The column [df['Name'].str[0].str.upper()]: [None] is the missing value
    pandas gives for an empty name, which [groupby] leaves out. *)
Definition group_of (user : user) : option pystr :=
  match Name user with
  | [] => None
  | c :: _ => Some (upper_char c)
  end.

(** [groupby('Group')['Age']]: per group, the sum of the ages and their
    number.  pandas adds the ages as float64, which is exact as long as the
    sums stay below [2^53]. *)
Definition group_add (acc : gmap pystr (Z * Z)) (user : user)
    : gmap pystr (Z * Z) :=
  match group_of user with
  | None => acc
  | Some g =>
      let '(total, n) := default (0, 0) (acc !! g) in
      <[g := (total + Age user, n + 1)]> acc
  end.

Definition group_sums (users : list user) : gmap pystr (Z * Z) :=
  fold_left group_add users ∅.

(** [.mean()] of a group: the float64 quotient of sum and count. *)
Definition mean_of (total n : Z) : spec_float :=
  fdiv (double_of_Z total) (double_of_Z n).

(** [get_average_age_by_group], app.py lines 258-271. *)
Definition get_average_age_by_group : handler := fun users =>
  match users with
  | [] => (Return (404, BError msg_no_users), users)
  | _ =>
      let group_averages :=
        (fun p : Z * Z => np_round2 (mean_of p.1 p.2)) <$> group_sums users in
      (Return (200, BAverage group_averages), users)
  end.

(** *** The registry as a transition system *)

Inductive request :=
| POST_users (data : json)
| DELETE_users (name : pystr)
| GET_users
| POST_users_upload (file : option file_storage)
| GET_users_average_age.

Definition handle (req : request) : handler :=
  match req with
  | POST_users data => create_user data
  | DELETE_users name => delete_user name
  | GET_users => get_users
  | POST_users_upload file => upload_users file
  | GET_users_average_age => get_average_age_by_group
  end.

(** The list [users] after a sequence of requests, served one after the
    other, starting from [users]. *)
Definition run (reqs : list request) (users : list user) : list user :=
  fold_left (fun users req => (handle req users).2) reqs users.



(** The body [{"Name": "John", "Age": 30}] and one with the same name in
    white space and another age. *)
Definition john_30 : gmap pystr pyval :=
  {[ lit "Name" := VStr (lit "John"); lit "Age" := VInt 30 ]}.

Definition john : user := {| Name := lit "John"; Age := 30 |}.

(** *** The tests of test_app.py *)




(** The file of [test_upload_users_success], as [pd.read_csv] reads it. *)
Definition test_csv : file_storage :=
  {| filename := lit "test.csv";
     read_csv := CsvFrame
       {| columns := [lit "Name"; lit "Age"];
          records :=
            [ {[ lit "Name" := VStr (lit "John"); lit "Age" := VInt 30 ]};
              {[ lit "Name" := VStr (lit "Jane"); lit "Age" := VInt 25 ]} ]
       |} |}.





(** *** The invariant of the registry *)

(** A stored record: a name that is not empty and is its own [strip()],
    an age between 1 and 120. *)
Definition valid_record (u : user) : Prop :=
  Name u <> [] /\ strip (Name u) = Name u /\ 1 <= Age u <= 120.

(** Every record is valid and no name is stored twice. *)
Definition registry_inv (users : list user) : Prop :=
  Forall valid_record users /\ NoDup (Name <$> users).

(** *** Inputs of the examples *)

(** The body [{"Name": "John", "Age": "30.0"}]. *)
Definition john_30_0 : gmap pystr pyval :=
  {[ lit "Name" := VStr (lit "John"); lit "Age" := VStr (lit "30.0") ]}.


(** A CSV file whose Age column pandas reads as text. *)
Definition upload_example : file_storage :=
  {| filename := lit "users.csv";
     read_csv := CsvFrame
       {| columns := [lit "Name"; lit "Age"];
          records :=
            [ {[ lit "Name" := VStr (lit "John"); lit "Age" := VStr (lit "30") ]};
              {[ lit "Name" := VStr (lit "Jane"); lit "Age" := VStr (lit "30.0") ]};
              {[ lit "Name" := VStr (lit "Bob"); lit "Age" := VStr (lit "abc") ]} ]
       |} |}.

(** A CSV file without the Age column. *)
Definition upload_no_age : file_storage :=
  {| filename := lit "users.csv";
     read_csv := CsvFrame
       {| columns := [lit "Name"; lit "Years"];
          records :=
            [ {[ lit "Name" := VStr (lit "John"); lit "Years" := VInt 30 ]} ]
       |} |}.

Definition alice_amy_bob : list user :=
  [ {| Name := lit "Alice"; Age := 20 |};
    {| Name := lit "Amy"; Age := 30 |};
    {| Name := lit "Bob"; Age := 25 |} ].

(** The rows a report lists under [invalid_users]; the key is absent when
    there are none. *)
Definition skipped_rows (skipped : option (list invalid_row * pystr))
    : list invalid_row :=
  match skipped with
  | Some (invalid_users, _) => invalid_users
  | None => []
  end.

(** The single creations that correspond to the rows of a table. *)
Definition as_creations (new_users : list (gmap pystr pyval)) : list request :=
  (fun user => POST_users (JObject user)) <$> new_users.

(** *** The groups of the aggregation, read off the list *)

(** The records of group [g], in the order of the list. *)
Definition group_members (g : pystr) (users : list user) : list user :=
  filter (fun user => group_of user = Some g) users.

Definition sum_ages (members : list user) : Z :=
  foldr (fun user acc => Age user + acc) 0 members.

(** The rounded mean of the ages of a group; no value for an empty one. *)
Definition group_average (members : list user) : option spec_float :=
  match members with
  | [] => None
  | _ =>
      Some (np_round2 (mean_of (sum_ages members)
                               (Z.of_nat (length members))))
  end.

(** *** The grouping as the documentation words it *)

(** The two ASCII alphabets; the capital of a small letter stands at the same
    place in the second as the letter does in the first. *)
Definition small_letters : pystr := lit "abcdefghijklmnopqrstuvwxyz".
Definition capital_letters : pystr := lit "ABCDEFGHIJKLMNOPQRSTUVWXYZ".

(** The uppercase of one character: the capital of an ASCII small letter,
    any other ASCII character itself, and what Unicode says of the rest. *)
Definition spec_uppercase (c : N) : pystr :=
  if (c <? 128)%N then
    match list_find (fun p : N * N => p.1 = c)
                    (zip small_letters capital_letters) with
    | Some (_, (_, capital)) => [capital]
    | None => [c]
    end
  else unicode_upper c.

(** "Group: uppercase first character of Name"; a name without characters
    has none. *)
Definition spec_group (name : pystr) : option pystr :=
  spec_uppercase <$> head name.

(** The records of a group, in the order of the list. *)
Definition spec_members (g : pystr) (users : list user) : list user :=
  filter (fun user => spec_group (Name user) = Some g) users.


(** Alice and al, amy, and bob: groups under small initials and a mean,
    62/3, that has to be rounded. *)
Definition amy_al_bob : list user :=
  [ {| Name := lit "amy"; Age := 20 |};
    {| Name := lit "Alice"; Age := 21 |};
    {| Name := lit "al"; Age := 21 |};
    {| Name := lit "bob"; Age := 25 |} ].

(** ** Lemmas on strings *)

Lemma lstrip_with_idem sp s :
  lstrip_with sp (lstrip_with sp s) = lstrip_with sp s.
Proof.
  induction s as [|c r IH]; simpl; [done|].
  destruct (sp c) eqn:E; [done|]. simpl. by rewrite E.
Qed.

Lemma lstrip_with_snoc sp s c :
  sp c = false -> lstrip_with sp (s ++ [c]) = lstrip_with sp s ++ [c].
Proof.
  intros Hc. induction s as [|d r IH]; simpl.
  - by rewrite Hc.
  - destruct (sp d); [done|done].
Qed.

Lemma lstrip_with_head sp s c r :
  lstrip_with sp s = c :: r -> sp c = false.
Proof.
  induction s as [|d s IH]; simpl; [done|].
  destruct (sp d) eqn:E; [done|]. intros [= -> _]. done.
Qed.

Lemma rstrip_with_cons sp c r :
  sp c = false -> exists r', rstrip_with sp (c :: r) = c :: r'.
Proof.
  intros Hc. unfold rstrip_with. simpl.
  rewrite lstrip_with_snoc by done. rewrite rev_app_distr. simpl. eauto.
Qed.

Lemma rstrip_with_idem sp s :
  rstrip_with sp (rstrip_with sp s) = rstrip_with sp s.
Proof.
  unfold rstrip_with. by rewrite rev_involutive, lstrip_with_idem.
Qed.

Lemma strip_with_idem sp s :
  strip_with sp (strip_with sp s) = strip_with sp s.
Proof.
  unfold strip_with.
  destruct (lstrip_with sp s) as [|c r] eqn:E; [done|].
  apply lstrip_with_head in E.
  destruct (rstrip_with_cons sp c r E) as [r' Hr'].
  rewrite <- (rstrip_with_idem sp (c :: r)) at 2.
  f_equal. rewrite Hr'. simpl. by rewrite E.
Qed.

Lemma strip_idem s : strip (strip s) = strip s.
Proof. apply strip_with_idem. Qed.

(** ** Lemmas on numbers *)

Lemma round_half_even_one n : round_half_even n 1 = n.
Proof.
  unfold round_half_even. rewrite Z.mod_1_r, Z.div_1_r. done.
Qed.

Lemma round_half_even_ge n d : 0 < d -> n / d <= round_half_even n d.
Proof.
  intros Hd. unfold round_half_even.
  repeat match goal with |- context [if ?b then _ else _] => destruct b end; lia.
Qed.

(** The integer a finite [double_of_Z z] denotes is [z] itself whenever it
    is below [2^52] in magnitude. *)
Lemma double_of_Z_small z a :
  int_of_float (double_of_Z z) = Return a -> Z.abs a < 2 ^ 52 -> a = z.
Proof.
  unfold double_of_Z.
  destruct (Z.max_spec 0 (Z.log2 (Z.abs z) - 52)) as [[Hlt ->]|[Hge ->]].
  - assert (Hz : 0 < Z.abs z) by (destruct z; simpl in *; lia).
    pose proof (Z.log2_spec _ Hz) as [Hlo _].
    set (e := Z.log2 (Z.abs z) - 52) in *.
    assert (He : 0 < 2 ^ e) by (apply Z.pow_pos_nonneg; lia).
    assert (Hq : 2 ^ 52 <= Z.abs z / 2 ^ e).
    { apply Z.div_le_lower_bound; [done|].
      replace (Z.log2 (Z.abs z)) with (e + 52) in Hlo by lia.
      rewrite Z.pow_add_r in Hlo by lia. lia. }
    pose proof (round_half_even_ge (Z.abs z) _ He) as Hm.
    set (m := round_half_even (Z.abs z) (2 ^ e)) in *.
    destruct (2 ^ emax <=? m * 2 ^ e); [done|].
    destruct m as [|p|p] eqn:Em; try lia.
    simpl. assert ((0 <=? e) = true) as -> by lia.
    intros [= <-] Ha. exfalso.
    assert (2 ^ 52 <= Z.pos p * 2 ^ e) by nia.
    destruct (z <? 0); lia.
  - rewrite Z.pow_0_r, round_half_even_one, Z.mul_1_r.
    destruct (2 ^ emax <=? Z.abs z); [done|].
    destruct z as [|p|p]; simpl; intros [= <-] _; lia.
Qed.


Lemma is_digit_spec c : is_digit c = true -> (48 <= c <= 57)%N.
Proof.
  unfold is_digit. intros [H1 H2]%andb_prop.
  apply N.leb_le in H1, H2. done.
Qed.

Lemma digits_value_nonneg_acc ds acc :
  forallb is_digit ds = true -> 0 <= acc ->
  0 <= fold_left (fun acc c => 10 * acc + (Z.of_N c - 48)) ds acc.
Proof.
  revert acc. induction ds as [|c r IH]; simpl; intros acc H Hacc; [done|].
  apply andb_prop in H as [Hc Hr]. apply IH; [done|].
  apply is_digit_spec in Hc. lia.
Qed.

Lemma read_digits_all ds :
  forallb is_digit ds = true -> read_digits ds = (ds, []).
Proof.
  induction ds as [|c r IH]; simpl; [done|].
  intros [Hc Hr]%andb_prop. rewrite Hc, IH; done.
Qed.

(** Where [int()] reads a whole number the underscore filter of [float()]
    lets it through as a plain run of digits with the same value. *)
Lemma long_scan_strip l : forall prev acc v,
  is_digit prev = true \/ prev = 95%N \/ head l <> Some 95%N ->
  long_scan prev acc l = Some v ->
  exists ds, strip_underscores prev l = Some ds
    /\ forallb is_digit ds = true
    /\ fold_left (fun acc c => 10 * acc + (Z.of_N c - 48)) ds acc = v.
Proof.
  induction l as [|c r IH]; simpl; intros prev acc v Hprev Hscan.
  - destruct (prev =? 95)%N; [done|]. exists []. by injection Hscan as <-.
  - destruct (c =? 95)%N eqn:Ec.
    + apply N.eqb_eq in Ec as ->.
      destruct (prev =? 95)%N eqn:Ep; [done|].
      apply N.eqb_neq in Ep.
      destruct Hprev as [Hd|[?|?]]; [|done|done].
      rewrite Hd. apply (IH _ _ _ (or_intror (or_introl eq_refl)) Hscan).
    + destruct (is_digit c) eqn:Ed; [|done].
      destruct (IH c _ v (or_introl Ed) Hscan) as (ds & -> & Hds & Hv).
      rewrite andb_false_r. exists (c :: ds). simpl. by rewrite Ed.
Qed.

Lemma read_sign_digit c r :
  is_digit c = true -> read_sign (c :: r) = (false, c :: r).
Proof.
  intros Hc%is_digit_spec. unfold read_sign.
  destruct (N.eqb_spec c 43); [lia|]. destruct (N.eqb_spec c 45); [lia|done].
Qed.

Lemma parse_inf_or_nan_digit u neg c r :
  read_sign u = (neg, c :: r) -> is_digit c = true ->
  parse_inf_or_nan u = None.
Proof.
  intros Hu Hc%is_digit_spec. unfold parse_inf_or_nan. rewrite Hu. simpl.
  assert (lower_ascii c = c) as ->.
  { unfold lower_ascii. destruct (N.leb_spec 65 c); [lia|done]. }
  repeat case_bool_decide; simpl; try done; exfalso;
    match goal with
    | H : c :: _ = lit _ |- _ => vm_compute in H; injection H as H' _; lia
    end.
Qed.

Lemma parse_decimal_digits u neg ds :
  read_sign u = (neg, ds) -> ds <> [] -> forallb is_digit ds = true ->
  parse_decimal u = Some (neg, digits_value ds, 0).
Proof.
  intros Hu Hne Hds. unfold parse_decimal.
  rewrite Hu, (read_digits_all _ Hds), app_nil_r.
  destruct ds; done.
Qed.

(** Every text [int()] accepts is a decimal literal of [float()] with the
    same digits and no fraction or exponent. *)
Lemma long_from_string_float t z :
  long_from_string t = Some z ->
  exists u neg n,
    strip_underscores 0 t = Some u
    /\ parse_inf_or_nan u = None
    /\ parse_decimal u = Some (neg, n, 0)
    /\ 0 <= n /\ z = (if neg then - n else n).
Proof.
  unfold long_from_string.
  destruct (read_sign t) as [neg r] eqn:Es.
  destruct r as [|c r]; [done|].
  destruct (c =? 95)%N eqn:Ec; [done|]. apply N.eqb_neq in Ec.
  destruct (long_scan 0 0 (c :: r)) as [v|] eqn:Escan; [|done].
  intros [= <-].
  assert (Hhead : forall prev,
    is_digit prev = true \/ prev = 95%N \/ head (c :: r) <> Some 95%N).
  { intros prev. right. right. simpl. congruence. }
  assert (Hc : is_digit c = true).
  { simpl in Escan. apply N.eqb_neq in Ec. rewrite Ec in Escan.
    by destruct (is_digit c). }
  assert (Hshape : forall prev, (prev =? 95)%N = false ->
    exists ds, strip_underscores prev (c :: r) = Some (c :: ds)
      /\ forallb is_digit (c :: ds) = true
      /\ digits_value (c :: ds) = v).
  { intros prev Hp.
    assert (Hscan' : long_scan prev 0 (c :: r) = Some v).
    { simpl in *. apply N.eqb_neq in Ec. by rewrite Ec, Hc in *. }
    destruct (long_scan_strip _ prev 0 v (Hhead prev) Hscan')
      as (ds & Hs & Hds & Hv).
    simpl in Hs. apply N.eqb_neq in Ec. rewrite Ec, Hc, andb_false_r in Hs.
    destruct (strip_underscores c r) as [ds'|] eqn:E; simpl in Hs; [|done].
    injection Hs as <-. exists ds'. simpl strip_underscores.
    by rewrite Ec, Hp, E. }
  assert (Hval : forall ds, forallb is_digit ds = true -> 0 <= digits_value ds).
  { intros ds Hds. by apply digits_value_nonneg_acc. }
  unfold read_sign in Es. destruct t as [|a t]; [done|].
  destruct (a =? 43)%N eqn:E43; [|destruct (a =? 45)%N eqn:E45].
  - injection Es as <- ->. apply N.eqb_eq in E43 as ->.
    destruct (Hshape 43%N eq_refl) as (ds & Hs & Hds & Hv).
    exists (43%N :: c :: ds), false, v. simpl strip_underscores.
    simpl in Hs. rewrite Hs. simpl. split; [done|].
    split; [by eapply parse_inf_or_nan_digit|].
    split; [by rewrite <- Hv; apply parse_decimal_digits|].
    split; [by rewrite <- Hv; apply Hval|done].
  - injection Es as <- ->. apply N.eqb_eq in E45 as ->.
    destruct (Hshape 45%N eq_refl) as (ds & Hs & Hds & Hv).
    exists (45%N :: c :: ds), true, v. simpl strip_underscores.
    simpl in Hs. rewrite Hs. simpl. split; [done|].
    split; [by eapply parse_inf_or_nan_digit|].
    split; [by rewrite <- Hv; apply parse_decimal_digits|].
    split; [by rewrite <- Hv; apply Hval|done].
  - injection Es as <- -> ->.
    destruct (Hshape 0%N eq_refl) as (ds & Hs & Hds & Hv).
    exists (c :: ds), false, v. rewrite Hs.
    pose proof (read_sign_digit c ds Hc) as Hrs.
    split; [done|].
    split; [by eapply parse_inf_or_nan_digit|].
    split; [by rewrite <- Hv; apply parse_decimal_digits|].
    split; [by rewrite <- Hv; apply Hval|done].
Qed.

(** Where [int(s)] succeeds, [float(s)] is the double nearest to it. *)
Lemma int_of_str_float s z :
  int_of_str s = Some z ->
  float_of_str s = Some (if z =? 0 then S754_zero (z <? 0) else double_of_Z z)
  \/ (z = 0 /\ float_of_str s = Some (S754_zero true)).
Proof.
  unfold int_of_str, float_of_str. intros H.
  destruct (over_digit_limit _); [done|].
  destruct (long_from_string_float _ _ H) as (u & neg & n & -> & -> & -> & Hn & ->).
  unfold double_of_decimal.
  destruct n as [|p|p]; [|left|lia].
  - destruct neg; [right|left]; done.
  - assert ((0 <=? 0) = true) as -> by done.
    rewrite Z.pow_0_r, Z.mul_1_r.
    destruct neg; simpl; done.
Qed.

Lemma round_half_even_le n d : round_half_even n d <= n / d + 1.
Proof.
  unfold round_half_even.
  repeat match goal with |- context [if ?b then _ else _] => destruct b end; lia.
Qed.

(** ** Lemmas on rounding *)

Lemma round_half_even_near n d :
  0 < d -> 0 <= n -> 2 * Z.abs (round_half_even n d * d - n) <= d.
Proof.
  intros Hd Hn. unfold round_half_even.
  pose proof (Z.div_mod n d ltac:(lia)) as Hdm.
  pose proof (Z.mod_pos_bound n d Hd) as Hr.
  set (q := n / d) in *. set (r := n mod d) in *.
  destruct (Z.ltb_spec (2 * r) d); [lia|].
  destruct (Z.ltb_spec d (2 * r)); [lia|].
  destruct (Z.even q); lia.
Qed.

Lemma round_half_even_bounds n d lo hi :
  0 < d -> lo * d <= n -> n < hi * d ->
  lo <= round_half_even n d <= hi.
Proof.
  intros Hd Hlo Hhi.
  assert (lo <= n / d) by (apply Z.div_le_lower_bound; lia).
  assert (n / d < hi) by (apply Z.div_lt_upper_bound; lia).
  pose proof (round_half_even_ge n d Hd).
  pose proof (round_half_even_le n d). lia.
Qed.

(** Where [1 <= n / d < 2^b], the exponent leaves exactly 53 bits. *)
Lemma ratio_exponent_spec n d b :
  0 < d -> d <= n -> 0 <= b <= 51 -> n < d * 2 ^ b ->
  let e := ratio_exponent n d in
  -53 <= e <= b - 53
  /\ 2 ^ 52 * d <= n * 2 ^ (- e) < 2 ^ 53 * d.
Proof.
  intros Hd Hn Hb Hlt. unfold ratio_exponent.
  set (ln := Z.log2 n). set (ld := Z.log2 d).
  destruct (Z.log2_spec n ltac:(lia)) as [Hn1 Hn2]. fold ln in Hn1, Hn2.
  destruct (Z.log2_spec d Hd) as [Hd1 Hd2]. fold ld in Hd1, Hd2.
  assert (Hld : 0 <= ld) by apply Z.log2_nonneg.
  assert (Hlow : ld <= ln) by (by apply Z.log2_le_mono).
  assert (Hup : ln <= ld + b).
  { apply Z.lt_succ_r. apply (Z.pow_lt_mono_r_iff 2); [lia|lia|].
    replace (Z.succ (ld + b)) with (Z.succ ld + b) by lia.
    rewrite Z.pow_add_r by lia. nia. }
  set (e0 := ln - ld - 53).
  assert (He0 : -53 <= e0 <= b - 53) by (unfold e0; lia).
  rewrite (Z.max_l 0 e0), (Z.max_r 0 (- e0)) by lia.
  rewrite Z.pow_0_r, Z.mul_1_r.
  assert (Hp0 : 0 < 2 ^ (- e0)) by (apply Z.pow_pos_nonneg; lia).
  assert (Hlo0 : 2 ^ 52 * d < n * 2 ^ (- e0)).
  { assert (2 ^ (ld + 53) <= n * 2 ^ (- e0)).
    { replace (ld + 53) with (ln + - e0) by (unfold e0; lia).
      rewrite Z.pow_add_r by lia. nia. }
    assert (2 ^ 52 * d < 2 ^ (ld + 53)); [|lia].
    replace (ld + 53) with (52 + Z.succ ld) by lia.
    rewrite Z.pow_add_r by lia. nia. }
  assert (Hhi0 : n * 2 ^ (- e0) < 2 ^ 54 * d).
  { assert (n * 2 ^ (- e0) < 2 ^ (ld + 54)).
    { replace (ld + 54) with (Z.succ ln + - e0) by (unfold e0; lia).
      rewrite Z.pow_add_r by lia. nia. }
    assert (2 ^ (ld + 54) <= 2 ^ 54 * d); [|lia].
    replace (ld + 54) with (54 + ld) by lia.
    rewrite Z.pow_add_r by lia. nia. }
  destruct (Z.ltb_spec (n * 2 ^ (- e0)) (d * 2 ^ 53)) as [Hcmp|Hcmp].
  - rewrite Z.max_l by lia. split; [lia|]. lia.
  - assert (Hb53 : e0 + 1 <= b - 53).
    { assert (e0 + 53 < b); [|lia].
      apply (Z.pow_lt_mono_r_iff 2); [lia|lia|].
      assert (d * 2 ^ (e0 + 53) <= n).
      { replace (2 ^ 53) with (2 ^ (e0 + 53) * 2 ^ (- e0)) in Hcmp
          by (rewrite <- Z.pow_add_r by lia; f_equal; lia).
        nia. }
      nia. }
    rewrite Z.max_l by lia. split; [lia|].
    replace (- e0) with (1 + - (e0 + 1)) in Hlo0, Hhi0, Hcmp by lia.
    rewrite Z.pow_add_r in Hlo0, Hhi0, Hcmp by lia.
    change (2 ^ 1) with 2 in *. lia.
Qed.

(** In that range the rounded quotient is a normal double whose mantissa
    is within a half of the scaled quotient. *)
Lemma round_ratio_normal neg n d b :
  0 < d -> d <= n -> 0 <= b <= 51 -> n < d * 2 ^ b ->
  exists m e,
    round_ratio neg n d = S754_finite neg (Z.to_pos m) e
    /\ 2 ^ 52 <= m < 2 ^ 53 /\ -53 <= e <= b - 52 /\ e < 0
    /\ 2 * Z.abs (m * d - n * 2 ^ (- e)) <= d.
Proof.
  intros Hd Hn Hb Hlt.
  destruct (ratio_exponent_spec n d b Hd Hn Hb Hlt) as (He & Hlo & Hhi).
  unfold round_ratio. set (e := ratio_exponent n d) in *.
  rewrite (Z.max_l 0 e), (Z.max_r 0 (- e)) by lia.
  rewrite Z.pow_0_r, Z.mul_1_r.
  assert (Hp : 0 < 2 ^ (- e)) by (apply Z.pow_pos_nonneg; lia).
  pose proof (round_half_even_near (n * 2 ^ (- e)) d Hd ltac:(nia)) as Hnear.
  pose proof (round_half_even_bounds (n * 2 ^ (- e)) d (2 ^ 52) (2 ^ 53)
                Hd Hlo Hhi) as Hm.
  set (m := round_half_even (n * 2 ^ (- e)) d) in *.
  destruct (Z.eqb_spec m (2 ^ 53)) as [Hm53|Hm53].
  - exists (2 ^ 52), (e + 1).
    assert ((971 <? e + 1) = false) as -> by lia.
    split; [done|]. split; [lia|]. split; [lia|]. split; [lia|].
    replace (- e) with (1 + - (e + 1)) in Hnear by lia.
    rewrite Z.pow_add_r in Hnear by lia. change (2 ^ 1) with 2 in Hnear.
    rewrite Hm53 in Hnear. change (2 ^ 53) with (2 * 2 ^ 52) in Hnear. lia.
  - exists m, e.
    assert ((971 <? e) = false) as -> by lia.
    split; [|lia]. unfold float_of_bits. destruct m; try lia. done.
Qed.

Lemma double_of_Z_exact z :
  0 < z < 2 ^ 53 -> double_of_Z z = S754_finite false (Z.to_pos z) 0.
Proof.
  intros Hz. unfold double_of_Z.
  assert (Hlog : Z.log2 (Z.abs z) < 53) by (apply Z.log2_lt_pow2; lia).
  rewrite Z.max_l by lia.
  rewrite Z.pow_0_r, round_half_even_one, Z.mul_1_r.
  assert (Hbig : 2 ^ 53 <= 2 ^ emax)
    by (apply Z.pow_le_mono_r; unfold emax; lia).
  destruct (Z.leb_spec (2 ^ emax) (Z.abs z)); [lia|].
  destruct z; try lia. done.
Qed.

Lemma float_same_eq x y : float_same x y = true -> x = y.
Proof.
  destruct x as [s|s| |s m e], y as [t|t| |t n f]; simpl; try done.
  - by intros ->%Bool.eqb_prop.
  - by intros ->%Bool.eqb_prop.
  - intros [[Hs Hm]%andb_prop He]%andb_prop.
    apply Bool.eqb_prop in Hs as ->. apply Pos.eqb_eq in Hm as ->.
    by apply Z.eqb_eq in He as ->.
Qed.

(** On the two-decimal numbers from 1.00 to 120.00 the rounded quotient is
    the one of the Standard Library. *)
Lemma round_ratio_decimal2 k :
  100 <= k <= 12000 -> round_ratio false k 100 = decimal2 k.
Proof.
  intros Hk.
  assert (Hall : forallb
    (fun k => float_same (round_ratio false k 100) (decimal2 k))
    (seqZ 100 11901) = true) by (vm_compute; reflexivity).
  rewrite forallb_forall in Hall. apply float_same_eq, Hall.
  apply list_elem_of_In, elem_of_seqZ. lia.
Qed.

Lemma scale_near x d c :
  2 * Z.abs x <= d -> 0 <= c -> 2 * Z.abs (x * c) <= d * c.
Proof.
  intros Hx Hc. rewrite Z.abs_mul, (Z.abs_eq c) by done.
  rewrite Z.mul_assoc. by apply Z.mul_le_mono_nonneg_r.
Qed.

(** [numpy.round(x, 2)] of the float64 mean of [n] ages between 1 and 120
    that add up to [total]: it is the float64 of [k / 100] for an integer [k]
    nearest to [100 * total / n]. *)
Lemma rounded_mean_spec total n :
  1 <= n < 2 ^ 32 -> n <= total <= 120 * n ->
  exists k,
    np_round2 (mean_of total n) = decimal2 k
    /\ 2 * Z.abs (100 * total - k * n) <= n.
Proof.
  intros Hn Ht. unfold mean_of.
  rewrite (double_of_Z_exact total), (double_of_Z_exact n) by lia.
  unfold fdiv. rewrite Z.sub_diag. simpl Z.max. simpl Z.opp.
  rewrite Z.pow_0_r, !Z.mul_1_r, !Z2Pos.id by lia.
  change (xorb false false) with false.
  destruct (round_ratio_normal false total n 7) as
    (m1 & e1 & -> & Hm1 & He1 & He1' & Hnear1); [lia|lia|lia|lia|].
  unfold np_round2, fmul. rewrite Z.add_0_r.
  rewrite (Z.max_l 0 e1), (Z.max_r 0 (- e1)) by lia.
  rewrite Z.pow_0_r, Z.mul_1_r, Z2Pos.id by lia.
  change (xorb false false) with false.
  set (a := - e1) in *.
  assert (Ha : 45 <= a <= 53) by (unfold a; lia).
  assert (HP : 2 ^ 45 <= 2 ^ a <= 2 ^ 53)
    by (split; apply Z.pow_le_mono_r; lia).
  set (P := 2 ^ a) in *.
  assert (Hm1up : m1 <= 120 * P + 1).
  { assert (total * P <= 120 * n * P)
      by (apply Z.mul_le_mono_nonneg_r; lia).
    apply (Z.mul_le_mono_pos_r _ _ n); lia. }
  destruct (round_ratio_normal false (m1 * 100) P 14) as
    (m2 & e2 & -> & Hm2 & He2 & He2' & Hnear2); [lia|lia|lia|lia|].
  unfold rint. assert ((0 <=? e2) = false) as -> by lia.
  rewrite Z2Pos.id by lia.
  set (c := - e2) in *.
  assert (Hc : 38 <= c <= 53) by (unfold c; lia).
  assert (HQ : 2 ^ 38 <= 2 ^ c <= 2 ^ 53)
    by (split; apply Z.pow_le_mono_r; lia).
  set (Q := 2 ^ c) in *.
  pose proof (round_half_even_near m2 Q ltac:(lia) ltac:(lia)) as Hnear3.
  set (k := round_half_even m2 Q) in *.
  (* the three roundings, brought to the common scale n * P * Q *)
  pose proof (scale_near _ _ (100 * Q) Hnear1 ltac:(lia)) as H1.
  pose proof (scale_near _ _ n Hnear2 ltac:(lia)) as H2.
  pose proof (scale_near _ _ (n * P) Hnear3 ltac:(lia)) as H3.
  assert (HPQ : 0 < P * Q) by lia.
  pose proof (Z.abs_mul (k * n - 100 * total) (P * Q)) as Habs.
  rewrite (Z.abs_eq (P * Q)) in Habs by lia.
  assert (Hsum : 2 * (Z.abs (k * n - 100 * total) * (P * Q))
                 <= n * (P * Q) + n * P + 100 * (n * Q)).
  { rewrite <- Habs.
    replace ((k * n - 100 * total) * (P * Q))
      with ((k * Q - m2) * (n * P) + (m2 * P - m1 * 100 * Q) * n
            + (m1 * n - total * P) * (100 * Q)) by ring.
    replace (n * (P * Q)) with (Q * (n * P)) by ring.
    replace (100 * (n * Q)) with (n * (100 * Q)) by ring.
    lia. }
  assert (Hk : 2 * Z.abs (100 * total - k * n) <= n).
  { destruct (Z.le_gt_cases (2 * Z.abs (100 * total - k * n)) n) as [|Hgt];
      [done|exfalso].
    assert (Hge : n + 1 <= 2 * Z.abs (k * n - 100 * total)) by lia.
    assert ((n + 1) * (P * Q) <= 2 * Z.abs (k * n - 100 * total) * (P * Q))
      by (apply Z.mul_le_mono_nonneg_r; lia).
    assert (n * P <= 2 ^ 32 * P) by (apply Z.mul_le_mono_nonneg_r; lia).
    assert (n * Q <= 2 ^ 32 * Q) by (apply Z.mul_le_mono_nonneg_r; lia).
    assert (2 ^ 38 * P <= P * Q)
      by (rewrite (Z.mul_comm P Q); apply Z.mul_le_mono_nonneg_r; lia).
    assert (2 ^ 45 * Q <= P * Q) by (apply Z.mul_le_mono_nonneg_r; lia).
    lia. }
  assert (Hkr : 100 <= k <= 12000).
  { split.
    - destruct (Z.le_gt_cases k 99) as [Hle|]; [exfalso|lia].
      assert (k * n <= 99 * n) by (apply Z.mul_le_mono_nonneg_r; lia). lia.
    - destruct (Z.le_gt_cases 12001 k) as [Hle|]; [exfalso|lia].
      assert (12001 * n <= k * n) by (apply Z.mul_le_mono_nonneg_r; lia).
      lia. }
  exists k. split; [|done].
  unfold float_of_bits. destruct k as [|pk|pk]; try lia.
  unfold fdiv. rewrite Z.sub_diag. simpl Z.max. simpl Z.opp.
  rewrite Z.pow_0_r, !Z.mul_1_r. change (xorb false false) with false.
  by apply round_ratio_decimal2.
Qed.

(** ** Lemmas on the validator *)




Lemma py_print_cases args :
  py_print args = Return tt
  \/ (py_print args = Raise ValueError /\ forallb printable args = false).
Proof. unfold py_print. destruct (forallb printable args); eauto. Qed.

Lemma validate_printed name age :
  py_print [name; age] = Return tt ->
  validate_user_data name age = validate_checks name age.
Proof. intros H. unfold validate_user_data. by rewrite H. Qed.

Lemma validate_returned name age r :
  validate_user_data name age = Return r ->
  py_print [name; age] = Return tt /\ validate_checks name age = Return r.
Proof.
  unfold validate_user_data.
  destruct (py_print_cases [name; age]) as [->|[-> _]]; done.
Qed.

(** What an accepting run of [validate_user_data] has checked. *)
Lemma validate_accepts name age e :
  validate_user_data name age = Return (true, e) ->
  exists s f a,
    name = VStr s /\ strip s <> [] /\ e = [] /\ pd_isna age = false
    /\ py_float age = Return f /\ is_integer f = true
    /\ int_of_float f = Return a /\ 1 <= a <= 120.
Proof.
  intros [_ Hc]%validate_returned. revert Hc.
  unfold validate_checks. destruct name as [| | | |s]; try done.
  case_bool_decide as Hs; [done|].
  destruct (pd_isna age) eqn:Hna; [done|].
  destruct (py_float age) as [f|[]] eqn:Hf; try done.
  destruct (is_integer f) eqn:Hi; [|done]. simpl.
  destruct (int_of_float f) as [a|] eqn:Ha; [|done].
  destruct (Z.leb_spec a 0); [done|]. destruct (Z.ltb_spec 120 a); [done|].
  simpl. intros [= <-]. exists s, f, a. repeat split; try done; lia.
Qed.

(** The two conversions of an accepted age agree: what [int(age)] returns
    is the integer [validate_user_data] has range-checked. *)
Lemma py_int_accepted age f a z :
  py_float age = Return f -> int_of_float f = Return a -> 1 <= a <= 120 ->
  py_int age = Return z -> z = a.
Proof.
  intros Hf Ha Hr Hz. assert (Hsmall : Z.abs a < 2 ^ 52) by lia.
  destruct age as [|b|n|g|s]; simpl in Hf, Hz.
  - done.
  - injection Hf as <-. injection Hz as <-.
    symmetry. by apply double_of_Z_small.
  - injection Hz as <-. symmetry. apply double_of_Z_small; [|done].
    by destruct (double_of_Z n); simplify_eq.
  - congruence.
  - destruct (int_of_str s) as [n|] eqn:Hn; [|done]. injection Hz as <-.
    destruct (int_of_str_float _ _ Hn) as [Hs|[-> Hs]];
      rewrite Hs in Hf; injection Hf as <-.
    + destruct (n =? 0) eqn:Hn0.
      * simpl in Ha. injection Ha as <-. lia.
      * symmetry. by apply double_of_Z_small.
    + simpl in Ha. injection Ha as <-. lia.
Qed.

Lemma user_exists_spec users name :
  user_exists users name = true <-> name ∈ Name <$> users.
Proof.
  unfold user_exists. rewrite existsb_exists, list_elem_of_fmap.
  split.
  - intros (u & Hin & Hu). apply bool_decide_eq_true in Hu.
    exists u. by rewrite list_elem_of_In.
  - intros (u & -> & Hin). exists u. rewrite <- list_elem_of_In.
    split; [done|]. by apply bool_decide_eq_true.
Qed.

(** ** Lemmas on the invariant *)

Lemma registry_inv_nil : registry_inv [].
Proof. split; constructor. Qed.

Lemma registry_inv_snoc users u :
  registry_inv users -> valid_record u -> user_exists users (Name u) = false ->
  registry_inv (users ++ [u]).
Proof.
  intros [Hall Hnd] Hu Hex. split.
  - apply Forall_app. split; [done|]. by constructor.
  - rewrite fmap_app. apply NoDup_app. split; [done|]. split.
    + intros n Hn [->|[]%elem_of_nil]%elem_of_cons.
      apply user_exists_spec in Hn. congruence.
    + apply NoDup_singleton.
Qed.

(** The record both [create_user] and [upload_users] build from an accepted
    pair is valid. *)
Lemma accepted_record_valid name age e z :
  validate_user_data name age = Return (true, e) ->
  py_int age = Return z ->
  valid_record {| Name := strip (str_of name); Age := z |}.
Proof.
  intros (s & f & a & -> & Hs & _ & _ & Hf & _ & Ha & Hr)%validate_accepts Hz.
  rewrite (py_int_accepted _ _ _ _ Hf Ha Hr Hz).
  split; [done|]. split; [apply strip_idem|done].
Qed.

Lemma list_remove_Some x l l' :
  list_remove x l = Some l' ->
  exists l1 l2, l = l1 ++ x :: l2 /\ l' = l1 ++ l2 /\ x ∉ l1.
Proof.
  revert l'. induction l as [|y r IH]; simpl; intros l' H; [done|].
  destruct (decide (y = x)) as [->|Hne].
  - injection H as <-. exists [], r. split; [done|]. split; [done|].
    apply not_elem_of_nil.
  - destruct (list_remove x r) as [r'|]; [|done]. injection H as <-.
    destruct (IH r' eq_refl) as (l1 & l2 & -> & -> & Hx).
    exists (y :: l1), l2. split; [done|]. split; [done|].
    intros [?|?]%elem_of_cons; [congruence|done].
Qed.

Lemma registry_inv_remove l1 x l2 :
  registry_inv (l1 ++ x :: l2) -> registry_inv (l1 ++ l2).
Proof.
  intros [Hall Hnd]. split.
  - apply Forall_app in Hall as [H1 H2]. apply Forall_cons in H2 as [_ H2].
    by apply Forall_app.
  - assert (Hsub : l1 ++ l2 `sublist_of` l1 ++ x :: l2).
    { apply sublist_app; [done|]. by apply sublist_cons. }
    apply (fmap_sublist Name) in Hsub. eauto using sublist_NoDup.
Qed.

Lemma create_user_inv data users :
  registry_inv users -> registry_inv (create_user data users).2.
Proof.
  intros Hinv. unfold create_user.
  destruct (truthy data); simpl; [|done].
  destruct data as [| |d]; try done.
  destruct (validate_user_data _ _) as [[[] e]|] eqn:Hv; try done.
  destruct (py_int _) as [z|] eqn:Hz; [|done].
  destruct (user_exists _ _) eqn:Hex; [done|]. simpl.
  apply registry_inv_snoc; [done| |done].
  by eapply accepted_record_valid.
Qed.

Lemma delete_user_inv name users :
  registry_inv users -> registry_inv (delete_user name users).2.
Proof.
  intros Hinv. unfold delete_user.
  destruct (find _ users) as [u|]; [|done].
  destruct (list_remove u users) as [users'|] eqn:Hr; [|done]. simpl.
  apply list_remove_Some in Hr as (l1 & l2 & -> & -> & _).
  by eapply registry_inv_remove.
Qed.

Lemma upload_rows_inv new_users : forall idx users added invalid,
  registry_inv users ->
  registry_inv (upload_rows idx new_users users added invalid).2.
Proof.
  induction new_users as [|user rest IH]; simpl; intros idx users added invalid Hinv;
    [done|].
  destruct (validate_user_data _ _) as [[[] e]|] eqn:Hv; [|by apply IH|done].
  destruct (py_int _) as [z|] eqn:Hz; [|done].
  destruct (user_exists _ _) eqn:Hex; [by apply IH|].
  apply IH. apply registry_inv_snoc; [done| |done].
  by eapply accepted_record_valid.
Qed.

Lemma upload_users_inv file users :
  registry_inv users -> registry_inv (upload_users file users).2.
Proof.
  intros Hinv. unfold upload_users.
  destruct file as [file|]; [|done].
  case_bool_decide; [done|].
  destruct (endswith _ _); simpl; [|done].
  destruct (read_csv file) as [|df]; [done|].
  destruct (negb _); [done|].
  pose proof (upload_rows_inv (records df) 0 users [] [] Hinv) as Hrows.
  by destruct (upload_rows _ _ _ _ _) as [[[? ?]|?] ?].
Qed.

Lemma handle_inv req users :
  registry_inv users -> registry_inv (handle req users).2.
Proof.
  destruct req; simpl.
  - apply create_user_inv.
  - apply delete_user_inv.
  - done.
  - apply upload_users_inv.
  - unfold get_average_age_by_group. by destruct users.
Qed.

(** C1. From the empty registry, after any sequence of requests (creations,
    deletions, bulk imports and reads, including those that end in an
    uncaught exception), every stored record has a non-empty name that equals
    its own [strip()], an integer age between 1 and 120, and no two stored
    records have the same name. *)
Theorem registry_invariant (reqs : list request) :
  registry_inv (run reqs []).
Proof.
  unfold run. generalize registry_inv_nil. generalize (@nil user).
  induction reqs as [|req reqs IH]; simpl; intros users Hinv; [done|].
  apply IH. by apply handle_inv.
Qed.

(** ** The validator *)

Lemma validation_messages_distinct :
  NoDup [msg_name_empty; msg_age_empty; msg_age_number; msg_age_integer;
         msg_age_range].
Proof. apply (bool_decide_unpack _). by vm_compute. Qed.




Lemma validate_integral_fourth s age f :
  py_print [VStr s; age] = Return tt ->
  strip s <> [] -> pd_isna age = false ->
  py_float age = Return f -> is_integer f = false ->
  validate_user_data (VStr s) age = Return (false, msg_age_integer).
Proof.
  intros Hp Hs Hna Hf Hi. rewrite (validate_printed _ _ Hp). simpl.
  rewrite bool_decide_eq_false_2 by done. by rewrite Hna, Hf, Hi.
Qed.


(** Two exceptions leave [validate_user_data]: the one of line 23 when an
    argument cannot be printed, and the [OverflowError] of [float(age)] on an
    [int] beyond the doubles. *)
Lemma validate_raises name age e :
  validate_user_data name age = Raise e ->
  (e = ValueError /\ py_print [name; age] = Raise ValueError)
  \/ (e = OverflowError /\ py_print [name; age] = Return tt
      /\ exists z, age = VInt z /\ py_float age = Raise e).
Proof.
  unfold validate_user_data.
  destruct (py_print_cases [name; age]) as [->|[-> _]];
    [|intros [= <-]; by left].
  intros H. right. revert H.
  unfold validate_checks. destruct name as [| | | |s]; try done.
  case_bool_decide; [done|]. destruct (pd_isna age) eqn:Hna; [done|].
  destruct (py_float age) as [f|e'] eqn:Hf.
  - destruct (is_integer f) eqn:Hi; [|done]. simpl.
    destruct f as [| | |sg m ex]; simpl in *; try done;
      by repeat case_match.
  - destruct e'; try done; intros [= <-];
      destruct age as [|b|z|g|t]; simpl in Hf; try done;
      try (by destruct (float_of_str t)); try (by destruct (double_of_Z z)).
    eauto.
Qed.

(** C2. [validate_user_data] does not answer every input: on a valid name
    and the integer age [10^400] the conversion [float(age)] raises
    [OverflowError], which the [except (ValueError, TypeError)] clause lets
    through, so no reason is returned at all. *)
Theorem validate_overflow_escapes :
  validate_user_data (VStr (lit "John")) (VInt (10 ^ 400))
  = Raise OverflowError.
Proof. by vm_compute. Qed.

(** The boundary cases of the age check on a valid name. *)
Lemma validate_examples :
  let v := validate_user_data (VStr (lit "John")) in
  v (VInt 0) = Return (false, msg_age_range)
  /\ v (VInt 121) = Return (false, msg_age_range)
  /\ v (VInt 1) = Return (true, [])
  /\ v (VInt 120) = Return (true, [])
  /\ v (VFloat (S754_finite false 61 (-1))) = Return (false, msg_age_integer)
  /\ v (VStr (lit "abc")) = Return (false, msg_age_number)
  /\ v (VFloat (S754_finite false 15 1)) = Return (true, [])
  /\ py_int (VFloat (S754_finite false 15 1)) = Return 30.
Proof. by vm_compute. Qed.


(** ** More on the validator *)

(** Below [2^1023] the conversion of an [int] to a double does not
    overflow. *)
Lemma double_of_Z_finite z :
  Z.abs z < 2 ^ 1023 ->
  exists a, int_of_float (double_of_Z z) = Return a
    /\ forall sg, double_of_Z z <> S754_infinity sg.
Proof.
  intros Hz. unfold double_of_Z.
  set (a := Z.abs z) in *. set (e := Z.max 0 (Z.log2 a - 52)).
  set (m := round_half_even a (2 ^ e)).
  assert (Ha0 : 0 <= a) by (unfold a; lia).
  assert (He0 : 0 <= e) by (unfold e; lia).
  assert (Hpe : 0 < 2 ^ e) by (apply Z.pow_pos_nonneg; lia).
  assert (Hlog : Z.log2 a < 1023).
  { destruct (Z.eq_dec a 0) as [->|Hne]; [done|].
    apply Z.log2_lt_pow2; lia. }
  assert (Hup : a < 2 ^ (e + 53)).
  { destruct (Z.eq_dec a 0) as [->|Hne]; [apply Z.pow_pos_nonneg; lia|].
    apply Z.log2_lt_pow2; [lia|]. unfold e. lia. }
  assert (Hq : a / 2 ^ e < 2 ^ 53).
  { apply Z.div_lt_upper_bound; [done|]. by rewrite <- Z.pow_add_r by lia. }
  assert (Hm : m * 2 ^ e <= 2 ^ (e + 53)).
  { pose proof (round_half_even_le a (2 ^ e)) as Hle. fold m in Hle.
    rewrite Z.pow_add_r by lia. nia. }
  assert (Hbig : 2 ^ (e + 53) < 2 ^ emax).
  { apply Z.pow_lt_mono_r; unfold emax; [lia|lia|].
    unfold e. lia. }
  destruct (Z.leb_spec (2 ^ emax) (m * 2 ^ e)) as [Hle|_]; [lia|].
  destruct m as [|p|p]; simpl; eauto.
Qed.






Lemma validate_raises_big name age e :
  validate_user_data name age = Raise e ->
  (e = ValueError /\ py_print [name; age] = Raise ValueError)
  \/ (e = OverflowError /\ exists z, age = VInt z /\ 2 ^ 1023 <= Z.abs z).
Proof.
  intros [Hv|(-> & _ & z & -> & Hf)]%validate_raises; [by left|right].
  split; [done|]. exists z. split; [done|].
  destruct (Z.lt_ge_cases (Z.abs z) (2 ^ 1023)) as [Hlt|]; [|done].
  destruct (double_of_Z_finite z Hlt) as (a & Ha & Hfin).
  simpl in Hf. by destruct (double_of_Z z).
Qed.


Lemma accepted_pair (name age : pyval) (e : pystr) (z : Z) :
  validate_user_data name age = Return (true, e) ->
  py_int age = Return z ->
  exists s f,
    name = VStr s /\ strip s <> [] /\ py_float age = Return f
    /\ int_of_float f = Return z /\ 1 <= z <= 120.
Proof.
  intros Hv Hz.
  destruct (validate_accepts _ _ _ Hv)
    as (s & f & a & -> & Hs & _ & _ & Hf & _ & Ha & Hr).
  rewrite (py_int_accepted _ _ _ _ Hf Ha Hr Hz). eauto 10.
Qed.

(** X4. Lines 33-41 and line 90 convert the age twice, with [float] and with
    [int].  Whenever the validator accepts and [int(age)] returns, the record
    built from the pair is valid: the name is the non-empty [strip()] of the
    given text and the stored age is the integer that was range-checked. *)
Theorem accepted_pair_record (name age : pyval) (e : pystr) (z : Z) :
  validate_user_data name age = Return (true, e) ->
  py_int age = Return z ->
  exists s f,
    name = VStr s /\ strip s <> [] /\ py_float age = Return f
    /\ int_of_float f = Return z /\ 1 <= z <= 120.
Proof. apply accepted_pair. Qed.

(** ** Creation *)

(** C3. [create_user] does not treat every accepted pair as the claim says:
    the body [{"Name": "John", "Age": "30.0"}] passes [validate_user_data]
    (its [float(age)] is the integral 30.0), and then line 90 converts the raw
    value with [int(age)], which raises [ValueError] on the text "30.0".  The
    request ends in that exception: nothing is appended, and the answer is
    neither the created record nor a duplicate error. *)
Theorem create_user_raises_after_validation :
  validate_user_data (VStr (lit "John")) (VStr (lit "30.0")) = Return (true, [])
  /\ create_user (JObject john_30_0) [] = (Raise ValueError, []).
Proof. by vm_compute. Qed.




(** ** Deletion *)

Lemma find_first_match (P : user -> bool) before u after :
  Forall (fun v => P v = false) before -> P u = true ->
  find P (before ++ u :: after) = Some u.
Proof.
  induction 1 as [|v before Hv _ IH]; simpl; intros Hu.
  - by rewrite Hu.
  - rewrite Hv. by apply IH.
Qed.

Lemma find_no_match (P : user -> bool) l :
  Forall (fun v => P v = false) l -> find P l = None.
Proof. induction 1 as [|v l Hv _ IH]; simpl; [done|]. by rewrite Hv. Qed.

Lemma list_remove_first before u after :
  u ∉ before -> list_remove u (before ++ u :: after) = Some (before ++ after).
Proof.
  induction before as [|v before IH]; simpl; intros Hu.
  - by rewrite decide_True.
  - apply not_elem_of_cons in Hu as [Hne Hu].
    rewrite decide_False by done. by rewrite IH.
Qed.

Lemma names_differ name (l : list user) :
  name ∉ Name <$> l ->
  Forall (fun v => bool_decide (Name v = name) = false) l.
Proof.
  intros Hn. apply Forall_forall. intros v Hv.
  apply bool_decide_eq_false_2. intros <-. apply Hn.
  apply list_elem_of_fmap. eauto.
Qed.

(** C7. [delete_user] compares the given name with the stored names as they
    are, character for character.  When no stored name equals it the answer
    is 404 'User not found' and the registry is unchanged; otherwise the first
    record with that name is removed and every other record stays, in the
    same order. *)
Theorem delete_user_spec (name : pystr) (users : list user) :
  (name ∉ Name <$> users ->
   delete_user name users = (Return (404, BError msg_not_found), users))
  /\ (forall before u after,
       users = before ++ u :: after -> Name u = name ->
       name ∉ Name <$> before ->
       delete_user name users
       = (Return (200, BMessage (lit "User " ++ name
                                 ++ lit " deleted successfully")),
          before ++ after)).
Proof.
  split.
  - intros Hn. unfold delete_user.
    by rewrite (find_no_match _ _ (names_differ _ _ Hn)).
  - intros before u after -> Hu Hn. unfold delete_user.
    rewrite (find_first_match _ before u after);
      [|by apply names_differ|by apply bool_decide_eq_true_2].
    rewrite list_remove_first; [done|].
    intros Hin. apply Hn. apply list_elem_of_fmap. eauto.
Qed.

(** ** More on creation and deletion *)

Lemma create_user_object d users :
  d <> ∅ ->
  create_user (JObject d) users
  = match validate_user_data (dict_get d (lit "Name")) (dict_get d (lit "Age")) with
    | Raise e => (Raise e, users)
    | Return (false, error) => (Return (400, BError error), users)
    | Return (true, _) =>
        let name := strip (str_of (dict_get d (lit "Name"))) in
        match py_int (dict_get d (lit "Age")) with
        | Raise e => (Raise e, users)
        | Return age =>
            if user_exists users name
            then (Return (400, BError msg_exists), users)
            else (Return (201, BUser {| Name := name; Age := age |}),
                  users ++ [{| Name := name; Age := age |}])
        end
    end.
Proof.
  intros Hd. unfold create_user. simpl.
  by rewrite bool_decide_eq_false_2 by done.
Qed.


Lemma create_user_answered
    (data : json) (users users' : list user) (status : Z) (b : body) :
  create_user data users = (Return (status, b), users') ->
  (status = 400 /\ users' = users /\ exists msg, b = BError msg)
  \/ (status = 201 /\ exists d s z,
        data = JObject d /\ d !! lit "Name" = Some (VStr s)
        /\ py_int (dict_get d (lit "Age")) = Return z
        /\ strip s <> [] /\ 1 <= z <= 120
        /\ user_exists users (strip s) = false
        /\ b = BUser {| Name := strip s; Age := z |}
        /\ users' = users ++ [{| Name := strip s; Age := z |}]).
Proof.
  unfold create_user. destruct (truthy data) eqn:Ht; simpl.
  - destruct data as [| |d]; try done.
    destruct (validate_user_data _ _) as [[[] e]|] eqn:Hv; try done.
    + destruct (py_int _) as [z|] eqn:Hz; [|done].
      destruct (accepted_pair _ _ _ _ Hv Hz)
        as (s & f & Hname & Hs & _ & _ & Hr).
      assert (Hd : d !! lit "Name" = Some (VStr s)).
      { unfold dict_get in Hname.
        destruct (d !! lit "Name"); simpl in Hname; by simplify_eq. }
      rewrite Hname. simpl.
      destruct (user_exists users (strip s)) eqn:Hex; intros [= <- <- <-].
      * left. eauto.
      * right. split; [done|]. exists d, s, z. done.
    + intros [= <- <- <-]. left. eauto.
  - intros [= <- <- <-]. left. eauto.
Qed.

(** X5. What an answered creation has done.  A 400 leaves the registry as it
    was.  A 201 has appended exactly one record at the end: its name is the
    [strip()] of the Name text, not empty and not stored before, its age is
    [int(Age)] and lies in 1..120; the body of the answer is that record. *)
Theorem create_user_outcome
    (data : json) (users users' : list user) (status : Z) (b : body) :
  create_user data users = (Return (status, b), users') ->
  (status = 400 /\ users' = users /\ exists msg, b = BError msg)
  \/ (status = 201 /\ exists d s z,
        data = JObject d /\ d !! lit "Name" = Some (VStr s)
        /\ py_int (dict_get d (lit "Age")) = Return z
        /\ strip s <> [] /\ 1 <= z <= 120
        /\ user_exists users (strip s) = false
        /\ b = BUser {| Name := strip s; Age := z |}
        /\ users' = users ++ [{| Name := strip s; Age := z |}]).
Proof. apply create_user_answered. Qed.



(** X8. Deleting the name of a record that was just created undoes the
    creation: the registry is the one before both requests. *)
Theorem create_then_delete
    (data : json) (users users' : list user) (u : user) :
  create_user data users = (Return (201, BUser u), users') ->
  delete_user (Name u) users'
  = (Return (200, BMessage (lit "User " ++ Name u
                            ++ lit " deleted successfully")), users).
Proof.
  intros Hc. apply create_user_answered in Hc
    as [(? & _)|(_ & d & s & z & _ & _ & _ & _ & _ & Hex & [= ->] & ->)];
    [done|].
  simpl. unfold delete_user.
  assert (Hn : strip s ∉ Name <$> users).
  { intros Hin%user_exists_spec. congruence. }
  rewrite (find_first_match _ users _ []);
    [|by apply names_differ|by apply bool_decide_eq_true_2].
  rewrite list_remove_first.
  - by rewrite app_nil_r.
  - intros Hin. apply Hn. apply list_elem_of_fmap.
    by exists {| Name := strip s; Age := z |}.
Qed.

(** X9. [delete_user] always answers: the [ValueError] of [users.remove] is
    out of reach.  A 404 means the name was not stored and nothing changed;
    a 200 means it was stored and the registry lost exactly one record, the
    others keeping their order. *)
Theorem delete_user_outcome (name : pystr) (users : list user) :
  exists status b users',
    delete_user name users = (Return (status, b), users')
    /\ ((status = 404 /\ user_exists users name = false /\ users' = users)
        \/ (status = 200 /\ user_exists users name = true
            /\ length users = S (length users')
            /\ users' `sublist_of` users)).
Proof.
  unfold delete_user.
  destruct (find _ users) as [u|] eqn:Hfind.
  - apply find_some in Hfind as [Hin Hu].
    apply bool_decide_eq_true in Hu. apply list_elem_of_In in Hin.
    assert (Hex : user_exists users name = true).
    { apply user_exists_spec, list_elem_of_fmap. eauto. }
    destruct (list_remove u users) as [users'|] eqn:Hrem.
    + apply list_remove_Some in Hrem as (l1 & l2 & -> & -> & _).
      do 3 eexists. split; [done|]. right.
      repeat split; [done| |].
      * rewrite !length_app. simpl. lia.
      * apply sublist_app; [done|]. by apply sublist_cons.
    + exfalso. clear Hu Hex. induction users as [|v users IH]; simpl in *.
      * by apply elem_of_nil in Hin.
      * destruct (decide (v = u)); [done|].
        apply elem_of_cons in Hin as [->|Hin]; [done|].
        destruct (list_remove u users); [done|]. by apply IH.
  - do 3 eexists. split; [done|]. left. repeat split.
    destruct (user_exists users name) eqn:Hex; [|done].
    apply user_exists_spec, list_elem_of_fmap in Hex as (u & -> & Hin).
    apply list_elem_of_In in Hin.
    eapply find_none in Hfind; [|done]. simpl in Hfind.
    by rewrite bool_decide_eq_true_2 in Hfind.
Qed.

(** X10. In a registry that keeps its invariant a deleted name is gone:
    after a 200 the name is not stored any more, and deleting it again is
    answered with 404. *)
Theorem delete_user_gone
    (name : pystr) (users users' : list user) (b : body) :
  registry_inv users ->
  delete_user name users = (Return (200, b), users') ->
  user_exists users' name = false
  /\ delete_user name users' = (Return (404, BError msg_not_found), users').
Proof.
  intros [_ Hnd] Hdel.
  assert (Hgone : name ∉ Name <$> users').
  { revert Hdel. unfold delete_user.
    destruct (find _ users) as [u|] eqn:Hfind; [|done].
    apply find_some in Hfind as [_ Hu]. apply bool_decide_eq_true in Hu.
    destruct (list_remove u users) as [l|] eqn:Hrem; [|done].
    intros [= _ <-].
    apply list_remove_Some in Hrem as (l1 & l2 & -> & -> & _).
    rewrite fmap_app, fmap_cons in Hnd.
    apply NoDup_app in Hnd as (_ & Hdisj & Hnd2).
    apply NoDup_cons in Hnd2 as [Hnot _].
    rewrite fmap_app, elem_of_app. intros [Hin|Hin].
    - apply (Hdisj _ Hin). rewrite Hu. left.
    - apply Hnot. by rewrite Hu. }
  split.
  - destruct (user_exists users' name) eqn:Hex; [|done].
    by apply user_exists_spec in Hex.
  - unfold delete_user. by rewrite (find_no_match _ _ (names_differ _ _ Hgone)).
Qed.

(** ** Bulk import *)

(** C4. A row does abort the rows after it.  In the table with the rows
    John/"30", Jane/"30.0", Bob/"abc" (a column pandas reads as text), the
    second row passes [validate_user_data] and then [int(age)] on line 213
    raises [ValueError]: the request ends there with John already appended,
    the third row is never looked at and no report is returned. *)
Theorem upload_users_row_aborts_batch :
  upload_users (Some upload_example) []
  = (Raise ValueError, [{| Name := lit "John"; Age := 30 |}]).
Proof. by vm_compute. Qed.

(** C8. A table that lacks the column Name or the column Age (compared as
    they are spelled) is answered with 400 and the missing-columns message,
    whatever its rows hold, and the registry is left as it was. *)
Theorem upload_users_missing_columns
    (file : file_storage) (df : dataframe) (users : list user) :
  filename file <> [] ->
  endswith (filename file) (lit ".csv") = true ->
  read_csv file = CsvFrame df ->
  lit "Name" ∉ columns df \/ lit "Age" ∉ columns df ->
  upload_users (Some file) users = (Return (400, BError msg_columns), users).
Proof.
  intros Hname Hext Hcsv Hcols. unfold upload_users.
  rewrite bool_decide_eq_false_2 by done. rewrite Hext, Hcsv. simpl.
  destruct Hcols as [H|H]; rewrite (bool_decide_eq_false_2 _ H);
    by rewrite ?andb_false_r.
Qed.

(** What a bulk import that reaches its report has done: the rows split into
    those appended, in order, to the registry and to the added list, and those
    recorded as skipped, each under a row number of the batch. *)
Lemma upload_rows_report new_users :
  forall idx users added invalid added' invalid' users',
  upload_rows idx new_users users added invalid
    = (Return (added', invalid'), users') ->
  exists new skipped,
    added' = added ++ new /\ invalid' = invalid ++ skipped
    /\ users' = users ++ new
    /\ (length new + length skipped = length new_users)%nat
    /\ Forall (fun r => idx + 2 <= row r < idx + 2 + Z.of_nat (length new_users))
         skipped.
Proof.
  induction new_users as [|user rest IH]; simpl;
    intros idx users added invalid added' invalid' users' H.
  - injection H as <- <- <-. exists [], []. by rewrite !app_nil_r.
  - destruct (validate_user_data _ _) as [[[] e]|] eqn:Hv; [| |done].
    + destruct (py_int _) as [z|] eqn:Hz; [|done].
      destruct (user_exists _ _) eqn:Hex.
      * apply IH in H as (new & skipped & -> & -> & -> & Hlen & Hrows).
        eexists new, (_ :: skipped). rewrite <- !app_assoc. simpl.
        repeat split; [lia|]. constructor; [simpl; lia|].
        eapply Forall_impl; [exact Hrows|]. simpl. lia.
      * apply IH in H as (new & skipped & -> & -> & -> & Hlen & Hrows).
        eexists (_ :: new), skipped. rewrite <- !app_assoc. simpl.
        repeat split; [lia|].
        eapply Forall_impl; [exact Hrows|]. simpl. lia.
    + apply IH in H as (new & skipped & -> & -> & -> & Hlen & Hrows).
      eexists new, (_ :: skipped). rewrite <- !app_assoc. simpl.
      repeat split; [lia|]. constructor; [simpl; lia|].
      eapply Forall_impl; [exact Hrows|]. simpl. lia.
Qed.

(** ** More on bulk import *)

Lemma py_int_raises_accepted name age msg e :
  validate_user_data name age = Return (true, msg) ->
  py_int age = Raise e -> e = ValueError.
Proof.
  intros Hv Hz.
  destruct (validate_accepts _ _ _ Hv)
    as (s & f & a & _ & _ & _ & Hna & Hf & Hi & _).
  destruct age as [|bo|n|g|t]; simpl in Hz, Hf, Hna; try done.
  - injection Hf as ->. by destruct f.
  - destruct (int_of_str t); [done|]. by injection Hz as <-.
Qed.

Lemma upload_rows_appends new_users : forall idx users added invalid,
  exists new,
    (upload_rows idx new_users users added invalid).2 = users ++ new
    /\ Forall valid_record new
    /\ NoDup (Name <$> new)
    /\ Forall (fun u => Name u ∉ Name <$> users) new.
Proof.
  induction new_users as [|user rest IH]; simpl; intros idx users added invalid.
  - exists []. rewrite app_nil_r. repeat split; constructor.
  - destruct (validate_user_data _ _) as [[[] e]|] eqn:Hv; [|by apply IH|].
    + destruct (py_int _) as [z|] eqn:Hz.
      * destruct (user_exists _ _) eqn:Hex; [by apply IH|].
        set (v := {| Name := _; Age := z |}).
        destruct (IH (idx + 1) (users ++ [v]) (added ++ [v]) invalid)
          as (new & -> & Hvalid & Hnd & Hfresh).
        exists (v :: new). rewrite <- app_assoc. split; [done|].
        assert (Hv' : Name v ∉ Name <$> users).
        { intros Hin%user_exists_spec. unfold v in Hin. simpl in Hin.
          congruence. }
        split; [|split].
        -- constructor; [|done]. by eapply accepted_record_valid.
        -- simpl. constructor; [|done].
           intros (u & Hu & Hin)%list_elem_of_fmap.
           rewrite Forall_forall in Hfresh. apply (Hfresh u Hin).
           rewrite fmap_app, elem_of_app. right. rewrite <- Hu. simpl. left.
        -- constructor; [done|].
           eapply Forall_impl; [exact Hfresh|]. simpl. intros u Hu Hin.
           apply Hu. rewrite fmap_app, elem_of_app. by left.
      * exists []. rewrite app_nil_r. repeat split; constructor.
    + exists []. rewrite app_nil_r. repeat split; constructor.
Qed.

Lemma upload_rows_raises new_users : forall idx users added invalid e,
  (upload_rows idx new_users users added invalid).1 = Raise e ->
  e = ValueError \/ e = OverflowError.
Proof.
  induction new_users as [|user rest IH]; simpl;
    intros idx users added invalid e; [done|].
  destruct (validate_user_data _ _) as [[[] msg]|e'] eqn:Hv; [|by apply IH|].
  - destruct (py_int _) as [z|e'] eqn:Hz.
    + destruct (user_exists _ _); by apply IH.
    + simpl. intros [= <-]. left. by eapply py_int_raises_accepted.
  - simpl. intros [= <-].
    destruct (validate_raises_big _ _ _ Hv) as [(-> & _)|(-> & _)]; eauto.
Qed.

(** X11. A bulk import only ever appends.  Whatever the file and however
    the request ends, also in an exception half way through the rows, the
    registry afterwards is the one before followed by new records; these are
    valid, have names that were not stored and differ from each other.  The
    only exceptions are [ValueError] and [OverflowError]. *)
Theorem upload_users_appends (file : option file_storage) (users : list user) :
  (exists new,
     (upload_users file users).2 = users ++ new
     /\ Forall valid_record new
     /\ NoDup (Name <$> new)
     /\ Forall (fun u => user_exists users (Name u) = false) new)
  /\ (forall e, (upload_users file users).1 = Raise e ->
       e = ValueError \/ e = OverflowError).
Proof.
  assert (Hnone : exists new : list user,
    users = users ++ new /\ Forall valid_record new /\ NoDup (Name <$> new)
    /\ Forall (fun u => user_exists users (Name u) = false) new).
  { exists []. rewrite app_nil_r. repeat split; constructor. }
  unfold upload_users. destruct file as [file|]; [|done].
  case_bool_decide; [done|].
  destruct (negb (endswith _ _)); [done|].
  destruct (read_csv file) as [|df]; [done|].
  destruct (negb (forallb _ _)); [done|].
  destruct (upload_rows_appends (records df) 0 users [] [])
    as (new & Hst & Hvalid & Hnd & Hfresh).
  pose proof (upload_rows_raises (records df) 0 users [] []) as Hexn.
  destruct (upload_rows _ _ _ _ _) as [[[added invalid]|e] users'];
    simpl in *; subst users'.
  - split; [|done]. exists new. repeat split; try done.
    eapply Forall_impl; [exact Hfresh|]. simpl. intros u Hu.
    destruct (user_exists users (Name u)) eqn:Hex; [|done].
    by apply user_exists_spec in Hex.
  - split; [|intros ? [= <-]; by apply Hexn]. exists new.
    repeat split; try done.
    eapply Forall_impl; [exact Hfresh|]. simpl. intros u Hu.
    destruct (user_exists users (Name u)) eqn:Hex; [|done].
    by apply user_exists_spec in Hex.
Qed.

Lemma create_user_row_state user users :
  (create_user (JObject user) users).2
  = match validate_user_data (dict_get user (lit "Name"))
                             (dict_get user (lit "Age")) with
    | Return (true, _) =>
        match py_int (dict_get user (lit "Age")) with
        | Return age =>
            let name := strip (str_of (dict_get user (lit "Name"))) in
            if user_exists users name then users
            else users ++ [{| Name := name; Age := age |}]
        | Raise _ => users
        end
    | _ => users
    end.
Proof.
  destruct (decide (user = ∅)) as [->|Hne].
  - by vm_compute.
  - rewrite create_user_object by done.
    destruct (validate_user_data _ _) as [[[] e]|]; try done.
    destruct (py_int _); [|done]. simpl. by destruct (user_exists _ _).
Qed.

Lemma upload_rows_as_creations new_users :
  forall idx users added invalid r users',
  upload_rows idx new_users users added invalid = (Return r, users') ->
  users' = run (as_creations new_users) users.
Proof.
  induction new_users as [|user rest IH]; simpl;
    intros idx users added invalid r users' H.
  - by injection H as _ <-.
  - unfold run. simpl. rewrite create_user_row_state.
    destruct (validate_user_data _ _) as [[[] e]|]; [|by eapply IH|done].
    destruct (py_int _); [|done]. simpl.
    destruct (user_exists _ _); by eapply IH.
Qed.

Lemma upload_rows_sorted new_users :
  forall idx users added invalid added' invalid' users',
  upload_rows idx new_users users added invalid
    = (Return (added', invalid'), users') ->
  exists skipped,
    invalid' = invalid ++ skipped
    /\ StronglySorted Z.lt (row <$> skipped)
    /\ Forall (fun r => idx + 2 <= row r) skipped.
Proof.
  induction new_users as [|user rest IH]; simpl;
    intros idx users added invalid added' invalid' users' H.
  - injection H as _ <- _. exists []. rewrite app_nil_r.
    repeat split; constructor.
  - assert (Hskip : forall users1 added1 e,
      upload_rows (idx + 1) rest users1 added1
        (invalid ++ [{| row := idx + 2; error := e |}])
        = (Return (added', invalid'), users') ->
      exists skipped, invalid' = invalid ++ skipped
        /\ StronglySorted Z.lt (row <$> skipped)
        /\ Forall (fun r => idx + 2 <= row r) skipped).
    { intros users1 added1 e H1.
      apply IH in H1 as (skipped & -> & Hsorted & Hlow).
      eexists (_ :: skipped). rewrite <- app_assoc. split; [done|]. split.
      - simpl. constructor; [done|]. apply Forall_fmap.
        eapply Forall_impl; [exact Hlow|]. simpl. lia.
      - constructor; [simpl; lia|].
        eapply Forall_impl; [exact Hlow|]. simpl. lia. }
    destruct (validate_user_data _ _) as [[[] e]|]; [|by eapply Hskip|done].
    destruct (py_int _); [|done].
    destruct (user_exists _ _); [by eapply Hskip|].
    apply IH in H as (skipped & -> & Hsorted & Hlow).
    exists skipped. split; [done|]. split; [done|].
    eapply Forall_impl; [exact Hlow|]. simpl. lia.
Qed.

(** X12. What an answered bulk import has done.  A 400 leaves the registry
    as it was.  A 201 comes from a table with both columns: the added list is
    exactly what was appended to the registry, every row is either added or
    listed as skipped, and the skipped rows carry strictly increasing numbers
    between 2 and the number of rows plus 1. *)
Theorem upload_users_outcome (file : option file_storage)
    (users users' : list user) (status : Z) (b : body) :
  upload_users file users = (Return (status, b), users') ->
  (status = 400 /\ users' = users /\ exists msg, b = BError msg)
  \/ (status = 201 /\ exists f df message added skipped,
        file = Some f /\ read_csv f = CsvFrame df
        /\ lit "Name" ∈ columns df /\ lit "Age" ∈ columns df
        /\ b = BUpload message added skipped
        /\ users' = users ++ added
        /\ (length added + length (skipped_rows skipped)
            = length (records df))%nat
        /\ StronglySorted Z.lt (row <$> skipped_rows skipped)
        /\ Forall (fun r => 2 <= row r <= Z.of_nat (length (records df)) + 1)
             (skipped_rows skipped)).
Proof.
  unfold upload_users. destruct file as [file|];
    [|intros [= <- <- <-]; left; eauto].
  case_bool_decide; [intros [= <- <- <-]; left; eauto|].
  destruct (negb (endswith _ _)); [intros [= <- <- <-]; left; eauto|].
  destruct (read_csv file) as [|df] eqn:Hcsv;
    [intros [= <- <- <-]; left; eauto|].
  destruct (negb (forallb _ _)) eqn:Hcols;
    [intros [= <- <- <-]; left; eauto|].
  destruct (upload_rows _ _ _ _ _) as [[[added invalid]|e] users1] eqn:Hrows;
    [|done].
  intros [= <- <- <-]. right. split; [done|].
  apply negb_false_iff in Hcols. simpl in Hcols.
  apply andb_prop in Hcols as [Hn Ha]. apply andb_prop in Ha as [Ha _].
  apply bool_decide_eq_true in Hn, Ha.
  destruct (upload_rows_report _ _ _ _ _ _ _ _ Hrows)
    as (new & skipped & -> & -> & -> & Hlen & Hrange).
  destruct (upload_rows_sorted _ _ _ _ _ _ _ _ Hrows)
    as (skipped' & Heq & Hsorted & _).
  simpl in Heq. subst skipped'. simpl in *.
  do 5 eexists. repeat split; try done.
  - by destruct skipped.
  - by destruct skipped.
  - destruct skipped; [constructor|]. simpl.
    eapply Forall_impl; [exact Hrange|]. simpl. lia.
Qed.

(** X13. A bulk import that is answered leaves the registry exactly as the
    single creations of its rows would, one POST /users per row in the order
    of the table. *)
Theorem upload_users_as_creations (file : file_storage) (df : dataframe)
    (users users' : list user) (b : body) :
  read_csv file = CsvFrame df ->
  upload_users (Some file) users = (Return (201, b), users') ->
  users' = run (as_creations (records df)) users.
Proof.
  intros Hcsv. unfold upload_users. rewrite Hcsv.
  case_bool_decide; [done|].
  destruct (negb (endswith _ _)); [done|].
  destruct (negb (forallb _ _)); [done|].
  destruct (upload_rows _ _ _ _ _) as [[r|e] users1] eqn:Hrows; [|done].
  apply upload_rows_as_creations in Hrows as ->.
  destruct r. by intros [= _ <-].
Qed.

(** ** Reads *)

(** C10. [get_users] and [get_average_age_by_group] answer without raising
    and leave the list [users] exactly as it was. *)
Theorem reads_leave_registry (users : list user) :
  get_users users = (Return (200, BUsers users (length users)), users)
  /\ (get_average_age_by_group users).2 = users
  /\ (exists r, (get_average_age_by_group users).1 = Return r)
  /\ run [GET_users; GET_users_average_age] users = users.
Proof.
  unfold run, get_average_age_by_group. destruct users; simpl; eauto 10.
Qed.

(** ** Aggregation *)

(** The sums and counts the fold has reached for group [g], from those it
    started with and the members it has met. *)
Lemma group_sums_acc users : forall (acc : gmap pystr (Z * Z)) g,
  fold_left group_add users acc !! g
  = match group_members g users with
    | [] => acc !! g
    | members =>
        Some ((default (0, 0) (acc !! g)).1 + sum_ages members,
              (default (0, 0) (acc !! g)).2 + Z.of_nat (length members))
    end.
Proof.
  induction users as [|u users IH]; intros acc g; [done|].
  simpl fold_left. rewrite IH. unfold group_members.
  rewrite filter_cons. unfold group_add at 1 2 3.
  destruct (group_of u) as [gu|] eqn:Hg.
  - destruct (default (0, 0) (acc !! gu)) as [total n] eqn:Hacc.
    destruct (decide (gu = g)) as [->|Hne].
    + rewrite decide_True by done. rewrite lookup_insert_eq. simpl.
      rewrite Hacc. simpl.
      destruct (filter _ users) as [|v members]; simpl; f_equal; f_equal; lia.
    + rewrite decide_False by congruence. by rewrite lookup_insert_ne.
  - by rewrite decide_False by done.
Qed.

Lemma group_sums_lookup users g :
  group_sums users !! g
  = match group_members g users with
    | [] => None
    | members => Some (sum_ages members, Z.of_nat (length members))
    end.
Proof.
  unfold group_sums. rewrite group_sums_acc, lookup_empty. simpl.
  by destruct (group_members g users).
Qed.

Lemma group_averages_lookup users g :
  ((fun p : Z * Z => np_round2 (mean_of p.1 p.2)) <$> group_sums users) !! g
  = group_average (group_members g users).
Proof.
  rewrite lookup_fmap, group_sums_lookup.
  by destruct (group_members g users).
Qed.

(** The handler's uppercasing is the documented one: on each of the 128 ASCII
    characters by running both, beyond them both ask Unicode. *)
Lemma upper_char_spec c : upper_char c = spec_uppercase c.
Proof.
  unfold upper_char, spec_uppercase.
  destruct (c <? 128)%N eqn:Hc.
  - assert (Hall : forallb
      (fun c => bool_decide
         ((if ((97 <=? c) && (c <=? 122))%N then [(c - 32)%N] else [c])
          = match list_find (fun p : N * N => p.1 = c)
                            (zip small_letters capital_letters) with
            | Some (_, (_, capital)) => [capital]
            | None => [c]
            end))
      (N.of_nat <$> seq 0 128) = true) by (vm_compute; reflexivity).
    rewrite forallb_forall in Hall.
    assert (Hin : In c (N.of_nat <$> seq 0 128)).
    { apply list_elem_of_In, list_elem_of_fmap. exists (N.to_nat c).
      apply N.ltb_lt in Hc. split; [lia|]. apply elem_of_seq. lia. }
    apply Hall in Hin. apply bool_decide_eq_true_1 in Hin. rewrite <- Hin.
    by destruct ((97 <=? c) && (c <=? 122))%N.
  - apply N.ltb_ge in Hc.
    destruct (N.leb_spec 97 c), (N.leb_spec c 122); simpl; try done; lia.
Qed.

Lemma group_of_spec user : group_of user = spec_group (Name user).
Proof.
  unfold group_of, spec_group.
  destruct (Name user) as [|c s]; [done|]. simpl. by rewrite upper_char_spec.
Qed.

Lemma group_members_spec g users :
  group_members g users = spec_members g users.
Proof.
  apply list_filter_iff. intros user. by rewrite group_of_spec.
Qed.

Lemma sum_ages_bounds members :
  Forall (fun user => 1 <= Age user <= 120) members ->
  Z.of_nat (length members) <= sum_ages members
  <= 120 * Z.of_nat (length members).
Proof.
  unfold sum_ages. induction 1 as [|u members Hu _ IH]; simpl length; simpl foldr; lia.
Qed.

(** The value of a group whose ages lie between 1 and 120: the float64 of
    [k / 100], for an integer [k] nearest to a hundred times the mean. *)
Lemma group_average_rounded members :
  members <> [] ->
  Forall (fun user => 1 <= Age user <= 120) members ->
  Z.of_nat (length members) < 2 ^ 32 ->
  exists k,
    group_average members = Some (decimal2 k)
    /\ 2 * Z.abs (100 * sum_ages members - k * Z.of_nat (length members))
       <= Z.of_nat (length members).
Proof.
  intros Hne Hages Hlen.
  destruct (rounded_mean_spec (sum_ages members) (Z.of_nat (length members)))
    as (k & Hk & Hb).
  - destruct members; [done|]. simpl length in *. lia.
  - by apply sum_ages_bounds.
  - exists k. split; [|exact Hb].
    unfold group_average. destruct members; [done|]. by rewrite Hk.
Qed.

Lemma average_age_rounded users g :
  Forall (fun user => 1 <= Age user <= 120) users ->
  Z.of_nat (length users) < 2 ^ 32 ->
  spec_members g users <> [] ->
  exists k,
    ((fun p : Z * Z => np_round2 (mean_of p.1 p.2)) <$> group_sums users) !! g
      = Some (decimal2 k)
    /\ 2 * Z.abs (100 * sum_ages (spec_members g users)
                  - k * Z.of_nat (length (spec_members g users)))
       <= Z.of_nat (length (spec_members g users)).
Proof.
  intros Hages Hlen Hne.
  rewrite group_averages_lookup, group_members_spec.
  apply group_average_rounded; [done| |].
  - rewrite Forall_forall in *. intros user Hin.
    apply list_elem_of_filter in Hin as [_ Hin]. by apply Hages.
  - pose proof (length_filter (fun user => spec_group (Name user) = Some g) users).
    unfold spec_members. lia.
Qed.



(** C6. [get_average_age_by_group] answers 404 'No users found' exactly on
    the empty registry.  On any other it answers 200 with a mapping whose
    keys are the uppercased first characters of the stored names and no
    others.  When the ages lie between 1 and 120, as those of stored records
    do, and there are fewer than [2^32] records, the value at a key is the
    mean of the ages of the records of that group rounded to two decimals:
    the float64 of [k / 100], where [k] is an integer nearest to a hundred
    times the sum of the ages divided by their number.  Groups, sums and
    numbers are read off the list with the uppercase of the two alphabets,
    not with the handler's fold.  On Alice/20, Amy/30, Bob/25 the mapping
    is A: 25.0, B: 25.0; on amy/20, Alice/21, al/21, bob/25 it is A: 20.67,
    B: 25.0. *)
Theorem average_age_by_group_spec (users : list user) :
  ((get_average_age_by_group users).1 = Return (404, BError msg_no_users)
   <-> users = [])
  /\ (users <> [] ->
      exists average_age,
        (get_average_age_by_group users).1 = Return (200, BAverage average_age)
        /\ (forall g, g ∈ dom average_age
                      <-> exists user,
                            user ∈ users /\ spec_group (Name user) = Some g)
        /\ (Forall (fun user => 1 <= Age user <= 120) users ->
            Z.of_nat (length users) < 2 ^ 32 ->
            forall g, spec_members g users <> [] ->
              exists k,
                average_age !! g = Some (decimal2 k)
                /\ 2 * Z.abs (100 * sum_ages (spec_members g users)
                              - k * Z.of_nat (length (spec_members g users)))
                   <= Z.of_nat (length (spec_members g users))))
  /\ (get_average_age_by_group alice_amy_bob).1
     = Return (200, BAverage {[ lit "A" := float_of_bits false (25 * 2 ^ 48) (-48);
                                lit "B" := float_of_bits false (25 * 2 ^ 48) (-48) ]})
  /\ (get_average_age_by_group amy_al_bob).1
     = Return (200, BAverage {[ lit "A" := decimal2 2067;
                                lit "B" := decimal2 2500 ]}).
Proof.
  split; [|split; [|split]].
  - unfold get_average_age_by_group. by destruct users.
  - intros Hne.
    exists ((fun p : Z * Z => np_round2 (mean_of p.1 p.2)) <$> group_sums users).
    split; [by destruct users|]. split.
    + intros g.
      rewrite elem_of_dom, group_averages_lookup, group_members_spec.
      unfold spec_members. split.
      * intros [x Hx].
        destruct (filter _ users) as [|u members] eqn:Hf; [done|].
        assert (Hu : u ∈ filter
                  (fun user => spec_group (Name user) = Some g) users)
          by (rewrite Hf; left).
        apply list_elem_of_filter in Hu as [Hg Hu]. eauto.
      * intros (u & Hu & Hg).
        assert (Hin : u ∈ filter
                  (fun user => spec_group (Name user) = Some g) users)
          by (by apply list_elem_of_filter).
        destruct (filter _ users); [by apply elem_of_nil in Hin|].
        simpl. eauto.
    + intros Hages Hlen g Hg. by apply average_age_rounded.
  - by vm_compute.
  - by vm_compute.
Qed.

(** ** More on aggregation *)

Lemma sum_ages_perm l l' : l ≡ₚ l' -> sum_ages l = sum_ages l'.
Proof.
  unfold sum_ages. induction 1; simpl; lia.
Qed.

Lemma group_average_perm l l' :
  l ≡ₚ l' -> group_average l = group_average l'.
Proof.
  intros Hp. unfold group_average.
  rewrite (sum_ages_perm _ _ Hp), (Permutation_length Hp).
  destruct l as [|u l], l' as [|u' l']; try done.
  - by apply Permutation_nil_cons in Hp.
  - symmetry in Hp. by apply Permutation_nil_cons in Hp.
Qed.

(** X14. The averages do not depend on the order of the registry: two lists
    with the same records in any order get the same answer. *)
Theorem average_age_order_free (users users' : list user) :
  users ≡ₚ users' ->
  (get_average_age_by_group users).1 = (get_average_age_by_group users').1.
Proof.
  intros Hp. unfold get_average_age_by_group.
  destruct users as [|u users], users' as [|u' users'].
  - done.
  - by apply Permutation_nil_cons in Hp.
  - symmetry in Hp. by apply Permutation_nil_cons in Hp.
  - simpl. do 3 f_equal. apply map_eq. intros g.
    rewrite !group_averages_lookup. apply group_average_perm.
    unfold group_members. by rewrite Hp.
Qed.


Lemma lone_average_ages a :
  1 <= a <= 120 ->
  int_of_float (np_round2 (mean_of a 1)) = Return a
  /\ is_integer (np_round2 (mean_of a 1)) = true.
Proof.
  intros Ha.
  assert (Hall : forallb
    (fun a => match int_of_float (np_round2 (mean_of a 1)) with
              | Return b => (b =? a) && is_integer (np_round2 (mean_of a 1))
              | Raise _ => false
              end) (seqZ 1 120) = true)
    by (vm_compute; reflexivity).
  rewrite forallb_forall in Hall.
  assert (Hin : In a (seqZ 1 120))
    by (apply list_elem_of_In, elem_of_seqZ; lia).
  specialize (Hall a Hin).
  destruct (int_of_float _) as [b|]; [|done].
  apply andb_prop in Hall as [Hb Hi]. by apply Z.eqb_eq in Hb as ->.
Qed.

(** X16. A record that is alone in its group gets its own age as the
    average, exactly: for an age between 1 and 120 the mean and the rounding
    to two decimals return the double of that integer. *)
Theorem average_age_lone_member (users : list user) (u : user) (g : pystr) :
  group_members g users = [u] -> 1 <= Age u <= 120 ->
  exists average_age value,
    (get_average_age_by_group users).1 = Return (200, BAverage average_age)
    /\ average_age !! g = Some value
    /\ is_integer value = true
    /\ int_of_float value = Return (Age u).
Proof.
  intros Hm Hage.
  assert (Hne : users <> []) by (intros ->; done).
  unfold get_average_age_by_group. destruct users as [|v users]; [done|].
  do 2 eexists. split; [done|]. rewrite group_averages_lookup, Hm.
  split; [done|]. simpl. rewrite Z.add_0_r.
  by destruct (lone_average_ages (Age u) Hage).
Qed.

(** ** The test suite *)


End Registry.

(** ** The theorems at concrete inputs *)

(** A run with the five kinds of request. *)
Lemma run_example :
  run ascii_decimal ascii_upper utf8_stdout default_max_str_digits
    [ POST_users (JObject {[ lit "Name" := VStr (lit " Ann ");
                             lit "Age" := VFloat (S754_finite false 15 1) ]});
      POST_users_upload (Some upload_example);
      GET_users;
      DELETE_users (lit "Ann");
      POST_users (JObject {[ lit "Name" := VStr (lit "John");
                             lit "Age" := VInt 40 ]});
      GET_users_average_age ] []
  = [ {| Name := lit "John"; Age := 30 |} ].
Proof. by vm_compute. Qed.

(** [numpy.round(x, 2)] on some means: 76/3 gives 25.33, 203/200 gives
    1.01 and not the 1.02 of an exact tie to even, because 1.015 is not a
    double. *)
Lemma np_round2_examples :
  np_round2 (mean_of 76 3) = SFdiv prec emax (double_of_Z 2533) (double_of_Z 100)
  /\ np_round2 (mean_of 203 200)
     = SFdiv prec emax (double_of_Z 101) (double_of_Z 100)
  /\ np_round2 (mean_of 50 2) = float_of_bits false (25 * 2 ^ 48) (-48)
  /\ int_of_float (float_of_bits false (25 * 2 ^ 48) (-48)) = Return 25.
Proof. by vm_compute. Qed.





Lemma delete_user_spec_witness :
  delete_user (lit " Amy") alice_amy_bob
    = (Return (404, BError msg_not_found), alice_amy_bob)
  /\ delete_user (lit "Amy") alice_amy_bob
     = (Return (200, BMessage (lit "User Amy deleted successfully")),
        [ {| Name := lit "Alice"; Age := 20 |};
          {| Name := lit "Bob"; Age := 25 |} ]).
Proof.
  split.
  - apply (delete_user_spec (lit " Amy") alice_amy_bob).
    apply (bool_decide_unpack _). by vm_compute.
  - apply (proj2 (delete_user_spec (lit "Amy") alice_amy_bob)
             [ {| Name := lit "Alice"; Age := 20 |} ]
             {| Name := lit "Amy"; Age := 30 |}
             [ {| Name := lit "Bob"; Age := 25 |} ]).
    + reflexivity.
    + reflexivity.
    + apply (bool_decide_unpack _). by vm_compute.
Defined.

Lemma upload_users_missing_columns_witness :
  upload_users ascii_decimal utf8_stdout default_max_str_digits (Some upload_no_age) alice_amy_bob
  = (Return (400, BError msg_columns), alice_amy_bob).
Proof.
  apply (upload_users_missing_columns ascii_decimal utf8_stdout default_max_str_digits upload_no_age
           {| columns := [lit "Name"; lit "Years"];
              records := [ {[ lit "Name" := VStr (lit "John");
                              lit "Years" := VInt 30 ]} ] |}).
  - by vm_compute.
  - reflexivity.
  - reflexivity.
  - right. apply (bool_decide_unpack _). by vm_compute.
Defined.

Lemma average_age_by_group_spec_witness :
  exists average_age k,
    (get_average_age_by_group ascii_upper amy_al_bob).1
      = Return (200, BAverage average_age)
    /\ average_age !! lit "A" = Some (decimal2 k)
    /\ 2 * Z.abs (100 * (20 + (21 + (21 + 0))) - k * 3) <= 3.
Proof.
  destruct (average_age_by_group_spec ascii_upper amy_al_bob)
    as (_ & Hgroups & _).
  destruct Hgroups as (average_age & Hres & _ & Hvalue); [by vm_compute|].
  destruct (Hvalue
              ltac:(repeat constructor; by vm_compute)
              ltac:(by vm_compute)
              (lit "A") ltac:(by vm_compute)) as (k & Hk & Hb).
  exists average_age, k. split; [exact Hres|]. split; [exact Hk|exact Hb].
Defined.

(** ** The further theorems at concrete inputs *)

Lemma registry_inv_alice_amy_bob : registry_inv alice_amy_bob.
Proof.
  split.
  - repeat constructor; by vm_compute.
  - apply (bool_decide_unpack _). by vm_compute.
Qed.



Lemma accepted_pair_record_witness :
  exists s f,
    VStr (lit " John ") = VStr s /\ strip s <> []
    /\ py_float ascii_decimal (VStr (lit "42")) = Return f
    /\ int_of_float f = Return 42 /\ 1 <= 42 <= 120.
Proof.
  apply (accepted_pair_record ascii_decimal utf8_stdout default_max_str_digits
           (VStr (lit " John ")) (VStr (lit "42")) [] 42).
  - reflexivity.
  - reflexivity.
Defined.

Lemma create_user_outcome_witness :
  (201 = 400 /\ [john] = [] /\ exists msg, BUser john = BError msg)
  \/ (201 = 201 /\ exists d s z,
        JObject john_30 = JObject d /\ d !! lit "Name" = Some (VStr s)
        /\ py_int ascii_decimal default_max_str_digits (dict_get d (lit "Age")) = Return z
        /\ strip s <> [] /\ 1 <= z <= 120
        /\ user_exists [] (strip s) = false
        /\ BUser john = BUser {| Name := strip s; Age := z |}
        /\ [john] = [] ++ [{| Name := strip s; Age := z |}]).
Proof.
  apply (create_user_outcome ascii_decimal utf8_stdout default_max_str_digits (JObject john_30) [] [john] 201
           (BUser john)).
  reflexivity.
Defined.



Lemma create_then_delete_witness :
  delete_user (Name john) [john]
  = (Return (200, BMessage (lit "User " ++ Name john
                            ++ lit " deleted successfully")), []).
Proof.
  apply (create_then_delete ascii_decimal utf8_stdout default_max_str_digits (JObject john_30) [] [john] john).
  reflexivity.
Defined.

Lemma delete_user_gone_witness :
  user_exists [ {| Name := lit "Alice"; Age := 20 |};
                {| Name := lit "Bob"; Age := 25 |} ] (lit "Amy") = false
  /\ delete_user (lit "Amy") [ {| Name := lit "Alice"; Age := 20 |};
                               {| Name := lit "Bob"; Age := 25 |} ]
     = (Return (404, BError msg_not_found),
        [ {| Name := lit "Alice"; Age := 20 |};
          {| Name := lit "Bob"; Age := 25 |} ]).
Proof.
  apply (delete_user_gone (lit "Amy") alice_amy_bob _
           (BMessage (lit "User Amy deleted successfully"))).
  - exact registry_inv_alice_amy_bob.
  - reflexivity.
Defined.

Lemma upload_users_outcome_witness :
  (201 = 400 /\ [john; {| Name := lit "Jane"; Age := 25 |}] = [john]
   /\ exists msg,
        BUpload (lit "Successfully added 1 users")
          [ {| Name := lit "Jane"; Age := 25 |} ]
          (Some ([ {| row := 2; error := lit "User John already exists" |} ],
                 lit "1 rows skipped due to validation errors or duplicates"))
        = BError msg)
  \/ (201 = 201 /\ exists f df message added skipped,
        Some test_csv = Some f /\ read_csv f = CsvFrame df
        /\ lit "Name" ∈ columns df /\ lit "Age" ∈ columns df
        /\ BUpload (lit "Successfully added 1 users")
             [ {| Name := lit "Jane"; Age := 25 |} ]
             (Some ([ {| row := 2; error := lit "User John already exists" |} ],
                    lit "1 rows skipped due to validation errors or duplicates"))
           = BUpload message added skipped
        /\ [john; {| Name := lit "Jane"; Age := 25 |}] = [john] ++ added
        /\ (length added + length (skipped_rows skipped)
            = length (records df))%nat
        /\ StronglySorted Z.lt (row <$> skipped_rows skipped)
        /\ Forall (fun r => 2 <= row r <= Z.of_nat (length (records df)) + 1)
             (skipped_rows skipped)).
Proof.
  apply (upload_users_outcome ascii_decimal utf8_stdout default_max_str_digits (Some test_csv) [john]).
  reflexivity.
Defined.

Lemma upload_users_as_creations_witness :
  [john; {| Name := lit "Jane"; Age := 25 |}]
  = run ascii_decimal ascii_upper utf8_stdout default_max_str_digits
      [ POST_users (JObject {[ lit "Name" := VStr (lit "John");
                               lit "Age" := VInt 30 ]});
        POST_users (JObject {[ lit "Name" := VStr (lit "Jane");
                               lit "Age" := VInt 25 ]}) ] [john].
Proof.
  apply (upload_users_as_creations ascii_decimal ascii_upper utf8_stdout
           default_max_str_digits test_csv
           {| columns := [lit "Name"; lit "Age"];
              records :=
                [ {[ lit "Name" := VStr (lit "John"); lit "Age" := VInt 30 ]};
                  {[ lit "Name" := VStr (lit "Jane"); lit "Age" := VInt 25 ]} ]
           |} [john] _
           (BUpload (lit "Successfully added 1 users")
              [ {| Name := lit "Jane"; Age := 25 |} ]
              (Some ([ {| row := 2; error := lit "User John already exists" |} ],
                     lit "1 rows skipped due to validation errors or duplicates")))).
  - reflexivity.
  - reflexivity.
Defined.

Lemma average_age_order_free_witness :
  (get_average_age_by_group ascii_upper alice_amy_bob).1
  = (get_average_age_by_group ascii_upper
       [ {| Name := lit "Amy"; Age := 30 |};
         {| Name := lit "Alice"; Age := 20 |};
         {| Name := lit "Bob"; Age := 25 |} ]).1.
Proof.
  apply (average_age_order_free ascii_upper). apply perm_swap.
Defined.


Lemma average_age_lone_member_witness :
  exists average_age value,
    (get_average_age_by_group ascii_upper alice_amy_bob).1
      = Return (200, BAverage average_age)
    /\ average_age !! lit "B" = Some value
    /\ is_integer value = true
    /\ int_of_float value = Return 25.
Proof.
  apply (average_age_lone_member ascii_upper alice_amy_bob
           {| Name := lit "Bob"; Age := 25 |} (lit "B")).
  - reflexivity.
  - by vm_compute.
Defined.
